(** * Noun-phrase feature extraction: a shallow embedding

    Source: [examples/np_semantic_segmentation/feature_extraction.py].

    The file has four independent adapters, each wrapping one external
    resource: [NLTKCollocations] (bigram score tables), [Wikidata] (remote
    SPARQL endpoint), [Word2Vec] (pretrained embedding model) and [Wordnet]
    (lexical database).  The external resources are parameters of the
    embedding; what the Python code does with their answers is translated
    statement by statement.

    Part I holds the definitions, Part II the properties. *)

From Stdlib Require Import ZArith QArith Ascii.
From stdpp Require Import gmap strings list.

Set Default Proof Using "Type".

(* ===================================================================== *)
(** * Part I.  The embedding                                              *)
(* ===================================================================== *)

(** ** Python values, exceptions and the effect monad *)

Module Py.

(** The exception classes the source can meet.  [except KeyError] selects
    by class, so the class is the constructor; a transport failure of the
    HTTP library carries its description, so that "the same exception" is
    observable. *)
Inductive exn : Type :=
| KeyError
| IndexError
| RequestException (detail : string).

Inductive result (A : Type) : Type :=
| Ok (a : A)
| Raise (e : exn).
Arguments Ok {A} a.
Arguments Raise {A} e.

(** A Python number as the source produces them: the literals [0] and
    [-1] are [int]s, table scores and similarities are [float]s.  Floats
    are never computed with here, only passed through, hence a type
    parameter [F]. *)
Inductive num (F : Type) : Type :=
| Int (z : Z)
| Float (f : F).
Arguments Int {F} z.
Arguments Float {F} f.

(** State and exceptions: a computation reads and updates a state [S] and
    either returns or raises.  The state reached when an exception is
    raised is kept, as in Python. *)
Definition Eff (S A : Type) : Type := S -> result A * S.

Definition ret {S A} (a : A) : Eff S A := fun s => (Ok a, s).

Definition bind {S A B} (m : Eff S A) (k : A -> Eff S B) : Eff S B :=
  fun s => match m s with
           | (Ok a, s') => k a s'
           | (Raise e, s') => (Raise e, s')
           end.

Definition raise {S A} (e : exn) : Eff S A := fun s => (Raise e, s).

Definition gets {S A} (f : S -> A) : Eff S A := fun s => (Ok (f s), s).

Definition modify {S} (f : S -> S) : Eff S unit := fun s => (Ok tt, f s).

(** [try: body / except KeyError: handler]. Any other exception leaves
    the statement. *)
Definition try_except_KeyError {S A} (body handler : Eff S A) : Eff S A :=
  fun s => match body s with
           | (Raise KeyError, s') => handler s'
           | r => r
           end.

(** [for x in xs: body x], where [body] answers [Some v] for
    [return v] and [None] for falling through to the next iteration. *)
Fixpoint for_each {S A B} (xs : list A) (body : A -> Eff S (option B))
  : Eff S (option B) :=
  match xs with
  | [] => ret None
  | x :: xs' =>
      bind (body x) (fun r =>
        match r with
        | Some v => ret (Some v)
        | None => for_each xs' body
        end)
  end.

(** *** Strings

    A [str] is a [string], one [ascii] per character. *)

(** [s.split(sep)] for a one-character separator: every occurrence of
    the separator cuts, so adjacent separators give empty tokens and the
    empty string gives one empty token. *)
Fixpoint split (sep : ascii) (s : string) : list string :=
  match s with
  | EmptyString => [EmptyString]
  | String c rest =>
      if Ascii.eqb c sep then EmptyString :: split sep rest
      else match split sep rest with
           | [] => [String c EmptyString]
           | tok :: toks => String c tok :: toks
           end
  end.

(** Iterating over a [str] yields its characters as one-character
    strings; this is what [list.extend(some_str)] appends. *)
Fixpoint chars (s : string) : list string :=
  match s with
  | EmptyString => []
  | String c rest => String c EmptyString :: chars rest
  end.

(** [s.replace(old, new)] for one-character [old] and [new]. *)
Fixpoint replace (old new : ascii) (s : string) : string :=
  match s with
  | EmptyString => EmptyString
  | String c rest =>
      String (if Ascii.eqb c old then new else c) (replace old new rest)
  end.

(** [xs[i]], raising [IndexError] out of range (non-negative [i]). *)
Definition index {S A} (xs : list A) (i : nat) : Eff S A :=
  match xs !! i with
  | Some x => ret x
  | None => raise IndexError
  end.

(** *** [collections.defaultdict]

    A dict with a [default_factory].  [d[k]] on a missing key calls the
    factory, stores the fresh value under [k] and returns it; with no
    factory it raises [KeyError] as a plain dict does.  The factory is
    represented by the value it makes. *)
Record defaultdict (K : Type) `{Countable K} (V : Type) : Type := {
  default_factory : option V;
  data : gmap K V
}.
Arguments default_factory {K _ _ V} d.
Arguments data {K _ _ V} d.

Section Defaultdict.
Context {K : Type} `{Countable K} {V : Type}.

Definition new_defaultdict (factory : option V) : defaultdict K V :=
  {| default_factory := factory; data := ∅ |}.

Definition store (k : K) (v : V) (d : defaultdict K V) : defaultdict K V :=
  {| default_factory := default_factory d; data := <[k := v]> (data d) |}.

Definition getitem (k : K) : Eff (defaultdict K V) V :=
  fun d => match data d !! k with
           | Some v => (Ok v, d)
           | None =>
               match default_factory d with
               | Some v => (Ok v, store k v d)
               | None => (Raise KeyError, d)
               end
           end.
End Defaultdict.

End Py.

Import Py.

Declare Scope eff_scope.
Delimit Scope eff_scope with eff.
Notation "x <- m ;; k" := (Py.bind m (fun x => k))
  (at level 100, m at next level, right associativity) : eff_scope.
Notation "m ;;; k" := (Py.bind m (fun _ => k))
  (at level 100, right associativity) : eff_scope.

(** ** [class NLTKCollocations] *)

Module NLTKCollocations.
Section WithScores.
(** The type of the [float] scores computed by [nltk]. *)
Context {F : Type}.

(** A score table: [tuple] of tokens to the list of its scores. *)
Local Abbreviation table := (defaultdict (list string) (list F)).

(** The fields of the object that the scoring method touches.  (The
    corpus finder and the measure object are consumed by [__init__].) *)
Record t : Type := {
  likelihood_ration_dict : table;
  chi_sq_dict : table;
  pmi_dict : table
}.

Definition set_chi_sq_dict (d : table) (self : t) : t :=
  {| likelihood_ration_dict := likelihood_ration_dict self;
     chi_sq_dict := d;
     pmi_dict := pmi_dict self |}.

Definition set_pmi_dict (d : table) (self : t) : t :=
  {| likelihood_ration_dict := likelihood_ration_dict self;
     chi_sq_dict := chi_sq_dict self;
     pmi_dict := d |}.

(** [build_bigram_score_dict]: [scored_bigrams] is what
    [self.bigram_finder.score_ngrams(score)] returned.  The loop body
    [bigram_dict[key[0], key[1]].append(scores)] reads the entry
    (creating it on a miss) and appends to that list in place. *)
Definition build_step (entry : (string * string) * F)
  : Eff table (option unit) :=
  (let '((k0, k1), scores) := entry in
   l <- getitem [k0; k1] ;;
   modify (store [k0; k1] (l ++ [scores])) ;;;
   ret None)%eff.

Definition build_bigram_score_dict
    (scored_bigrams : list ((string * string) * F)) : table :=
  snd (for_each scored_bigrams build_step (new_defaultdict (Some []))).

(** What [nltk] hands to [__init__]: the scored bigrams of the corpus
    under each of the three measures. *)
Record corpus_scores : Type := {
  score_likelihood_ratio : list ((string * string) * F);
  score_chi_sq : list ((string * string) * F);
  score_pmi : list ((string * string) * F)
}.

Definition init (c : corpus_scores) : t :=
  {| likelihood_ration_dict := build_bigram_score_dict (score_likelihood_ratio c);
     chi_sq_dict := build_bigram_score_dict (score_chi_sq c);
     pmi_dict := build_bigram_score_dict (score_pmi c) |}.

(** The frame of one call of [get_pmi_score]: the object and the local
    [response_list], which the [try] body and the handler both mutate. *)
Record frame : Type := {
  self : t;
  response_list : list (num F)
}.

Definition append (x : num F) : Eff frame unit :=
  modify (fun fr => {| self := self fr;
                       response_list := response_list fr ++ [x] |}).

Definition extend (xs : list (num F)) : Eff frame unit :=
  modify (fun fr => {| self := self fr;
                       response_list := response_list fr ++ xs |}).

(** [self.pmi_dict[key]] and [self.chi_sq_dict[key]]. *)
Definition pmi_dict_getitem (key : list string) : Eff frame (list F) :=
  fun fr =>
    let '(r, d) := getitem key (pmi_dict (self fr)) in
    (r, {| self := set_pmi_dict d (self fr);
           response_list := response_list fr |}).

Definition chi_sq_dict_getitem (key : list string) : Eff frame (list F) :=
  fun fr =>
    let '(r, d) := getitem key (chi_sq_dict (self fr)) in
    (r, {| self := set_chi_sq_dict d (self fr);
           response_list := response_list fr |}).

(** [if scores: response_list.append(scores[0]) else: response_list.append(0)] *)
Definition append_first_or_zero (scores : list F) : Eff frame unit :=
  match scores with
  | first :: _ => append (Float first)
  | [] => append (Int 0)
  end.

(** Lines 73-77: the tokens looked up for a phrase. *)
Definition candidates_of {S} (phrase : string) : Eff S (list string) :=
  (let candidates := split " "%char phrase in
   if (length candidates <? 2)%nat then
     c0 <- index candidates 0 ;;
     ret (candidates ++ chars c0)
   else ret candidates)%eff.

(** Lines 80-89: the body of the [try]. *)
Definition try_body (candidates : list string) : Eff frame unit :=
  (pmi_score <- pmi_dict_getitem candidates ;;
   append_first_or_zero pmi_score ;;;
   chi_sq_score <- chi_sq_dict_getitem candidates ;;
   append_first_or_zero chi_sq_score)%eff.

(** Line 91: the [except KeyError] handler. *)
Definition handler : Eff frame unit := extend [Int 0; Int 0].

Definition get_pmi_score_frame (phrase : string)
  : Eff frame (list (num F)) :=
  (candidates <- candidates_of phrase ;;
   try_except_KeyError (try_body candidates) handler ;;;
   gets response_list)%eff.

(** The method: run the frame with [response_list = []] and give back
    the returned list with the object as the call left it. *)
Definition get_pmi_score (phrase : string) : Eff t (list (num F)) :=
  fun obj =>
    let '(r, fr) := get_pmi_score_frame phrase
                      {| self := obj; response_list := [] |} in
    (r, self fr).

(** The object after a history of calls. *)
Definition after_calls (obj : t) (phrases : list string) : t :=
  fold_left (fun o p => snd (get_pmi_score p o)) phrases obj.

End WithScores.
Arguments t F : clear implicits.
Arguments frame F : clear implicits.
Arguments corpus_scores F : clear implicits.
End NLTKCollocations.

(** ** [class Wikidata] *)

Module Wikidata.

(** What the code reads of a [requests.Response]. *)
Record Response : Type := {
  status_code : Z;
  content : string
}.

(** One call of [requests.get(url, headers=..., proxies=...)]. *)
Record request : Type := {
  url : string;
  req_headers : gmap string string;
  req_proxies : gmap string string
}.

Record t : Type := {
  headers : gmap string string;
  proxies : gmap string string
}.

(** The module-level [headers = {"Accept": "application/json"}]. *)
Definition module_headers : gmap string string :=
  {[ "Accept" := "application/json" ]}.

(** [if http_proxy:] holds for a non-empty string. *)
Definition truthy_str (o : option string) : bool :=
  match o with
  | Some (String _ _) => true
  | _ => false
  end.

Definition init (http_proxy https_proxy : option string) : t :=
  let proxies := ∅ in
  let proxies := if truthy_str http_proxy
                 then <[ "http" := default EmptyString http_proxy ]> proxies
                 else proxies in
  let proxies := if truthy_str https_proxy
                 then <[ "https" := default EmptyString https_proxy ]> proxies
                 else proxies in
  {| headers := module_headers; proxies := proxies |}.

Definition nl : string := String "010"%char EmptyString.
Definition dq : string := String "034"%char EmptyString.

Fixpoint unlines (ls : list string) : string :=
  match ls with
  | [] => EmptyString
  | [l] => l
  | l :: ls' => l +:+ nl +:+ unlines ls'
  end.

(** The two halves of the triple-quoted query text around [phrase]. *)
Definition chr_url_prefix : string :=
  unlines [ "https://query.wikidata.org/sparql?query=";
            "                        SELECT ?item ?lable";
            "                        WHERE";
            "                        {";
            "                            ?item ?label '" ].

Definition chr_url_suffix : string :=
  unlines [ "'@en .";
            "            SERVICE wikibase:label { bd:serviceParam wikibase:language "
              +:+ dq +:+ "en" +:+ dq +:+ ". }";
            "                        }";
            "                        &format = JSON" ].

Definition chr_url (phrase : string) : string :=
  chr_url_prefix +:+ phrase +:+ chr_url_suffix.

(** The body of an answer with no bindings. *)
Definition empty_result : string :=
  unlines [ "{";
            "  " +:+ dq +:+ "head" +:+ dq +:+ " : {";
            "    " +:+ dq +:+ "vars" +:+ dq +:+ " : [ "
              +:+ dq +:+ "item" +:+ dq +:+ ", "
              +:+ dq +:+ "lable" +:+ dq +:+ " ]";
            "  },";
            "  " +:+ dq +:+ "results" +:+ dq +:+ " : {";
            "    " +:+ dq +:+ "bindings" +:+ dq +:+ " : [ ]";
            "  }";
            "}" ].

Section WithNetwork.
(** The network during one call: what [requests.get] does for each
    request, a response or an exception.  The state of a computation is
    the list of requests issued so far, oldest first. *)
Variable requests_get : request -> result Response.

(** The order in which [for candidate in set(candidates)] visits the
    distinct candidates; Python leaves it to the hash table. *)
Variable set_iter : list string -> list string.

Definition get (rq : request) : Eff (list request) Response :=
  fun log => (requests_get rq, log ++ [rq]).

Definition has_item (self : t) (phrase : string)
  : Eff (list request) bool :=
  (let chr_url := chr_url phrase in
   r <- get {| url := chr_url;
               req_headers := headers self;
               req_proxies := proxies self |} ;;
   if (status_code r =? 200)%Z && negb (String.eqb empty_result (content r))
   then ret true
   else ret false)%eff.

Definition find_wikidata_existence (self : t) (candidates : list string)
  : Eff (list request) Z :=
  (found <- for_each (set_iter candidates) (fun candidate =>
              hit <- has_item self candidate ;;
              if hit then ret (Some 1%Z) else ret None) ;;
   match found with
   | Some v => ret v
   | None => ret 0%Z
   end)%eff.
End WithNetwork.

End Wikidata.

(** ** [class Word2Vec] *)

Module Word2Vec.
Section WithFloats.
(** The type of the [float]s of the embedding model. *)
Context {F : Type}.

(** What the code uses of a [gensim] [KeyedVectors]: its truth value,
    its vocabulary, the vector of a word, and [similarity], which
    answers a float or raises (a [KeyError] for a word it lacks). *)
Record KeyedVectors : Type := {
  truthy : bool;
  vocab : gset string;
  word_vec : string -> list F;
  similarity : string -> string -> result F
}.

Record t : Type := {
  word2vec_model_path : string;
  model : option KeyedVectors
}.

(** [load_word2vec_model_from_path], given what
    [KeyedVectors.load_word2vec_format(path, binary=True)] returned. *)
Definition load_word2vec_model_from_path
    (word_embeddings_model : KeyedVectors) : option KeyedVectors :=
  if negb (truthy word_embeddings_model) then None
  else Some word_embeddings_model.

Definition init (load_word2vec_format : string -> KeyedVectors)
    (word2vec_model_path : string) : t :=
  {| word2vec_model_path := word2vec_model_path;
     model := load_word2vec_model_from_path
                (load_word2vec_format word2vec_model_path) |}.

(** [not self.model]: [None] is false, an object has its own truth
    value. *)
Definition not_model (self : t) : bool :=
  match model self with
  | None => true
  | Some m => negb (truthy m)
  end.

(** [np.full((300,), -1)] *)
Definition np_full_300_minus_1 : list (num F) := replicate 300 (Int (-1)).

Definition get_word_embedding (self : t) (word : string) : list (num F) :=
  match model self with
  | Some m =>
      if negb (truthy m) then np_full_300_minus_1
      else if bool_decide (word ∈ vocab m)
           then Float <$> word_vec m word
           else np_full_300_minus_1
  | None => np_full_300_minus_1
  end.

(** A call of [self.model.similarity(w1, w2)]; the state of a
    computation is the list of such calls so far, oldest first. *)
Definition model_similarity (m : KeyedVectors) (w1 w2 : string)
  : Eff (list (string * string)) (num F) :=
  fun log => (match similarity m w1 w2 with
              | Ok f => Ok (Float f)
              | Raise e => Raise e
              end, log ++ [(w1, w2)]).

Definition get_similarity_score (self : t) (noun_phrase : string)
  : Eff (list (string * string)) (num F) :=
  (let candidates := split " "%char noun_phrase in
   candidates <- (if (length candidates <? 2)%nat then
                    c0 <- index candidates 0 ;;
                    ret (candidates ++ chars c0)
                  else ret candidates) ;;
   if (2 <? length candidates)%nat then ret (Int (-1))
   else
     try_except_KeyError
       (match model self with
        | None => ret (Int (-1))
        | Some m =>
            if negb (truthy m) then ret (Int (-1))
            else
              c0 <- index candidates 0 ;;
              c1 <- index candidates 1 ;;
              model_similarity m c0 c1
        end)
       (ret (Int (-1))))%eff.
End WithFloats.
Arguments KeyedVectors F : clear implicits.
Arguments t F : clear implicits.
End Word2Vec.

(** ** [class Wordnet] *)

Module Wordnet.
Section WithWordnet.
(** The lexical database: [self.wordnet.synsets(word)] answers the list
    of sense entries of [word].  The state of a computation is the list
    of words looked up so far, oldest first. *)
Context {Synset : Type}.
Variable wordnet_synsets : string -> list Synset.

Definition synsets (word : string) : Eff (list string) (list Synset) :=
  fun log => (Ok (wordnet_synsets word), log ++ [word]).

Definition find_wordnet_existence (candidates : list string)
  : Eff (list string) Z :=
  (found <- for_each candidates (fun candidate =>
              let candidate := replace " "%char "_"%char candidate in
              senses <- synsets candidate ;;
              match senses with
              | _ :: _ => ret (Some 1%Z)
              | [] => ret None
              end) ;;
   match found with
   | Some v => ret v
   | None => ret 0%Z
   end)%eff.
End WithWordnet.
End Wordnet.

(** ** Vocabulary of the statements *)

(** [contains c s]: the character [c] occurs in [s]. *)
Fixpoint contains (c : ascii) (s : string) : bool :=
  match s with
  | EmptyString => false
  | String a rest => Ascii.eqb a c || contains c rest
  end.

(** The tuple of tokens that lines 73-77 make of a phrase. *)
Definition tokens (phrase : string) : list string :=
  match split " "%char phrase with
  | [c0] => c0 :: chars c0
  | candidates => candidates
  end.

(** What a table holds for a key, read without touching the table: the
    stored list, or the empty list of the factory. *)
Definition scores_at {F} (d : defaultdict (list string) (list F))
    (key : list string) : list F :=
  default [] (data d !! key).

(** The number [get_pmi_score] reports for a list of scores. *)
Definition first_or_zero {F} (scores : list F) : num F :=
  match scores with
  | first :: _ => Float first
  | [] => Int 0
  end.

(** The elements of [xs] a loop visits when it leaves at the first element
    satisfying [p]: that element and all before it. *)
Fixpoint upto_first {A} (p : A -> bool) (xs : list A) : list A :=
  match xs with
  | [] => []
  | x :: xs' => if p x then [x] else x :: upto_first p xs'
  end.

(** What [d[key]] does to a table whose factory is [list]: a missing key
    is entered with the empty list, a present one changes nothing. *)
Definition touch {F} (key : list string)
    (d : defaultdict (list string) (list F)) : defaultdict (list string) (list F) :=
  match data d !! key with
  | Some _ => d
  | None => store key [] d
  end.

(** The tables of an object were made by [collections.defaultdict(list)]. *)
Definition list_factory {F} (d : defaultdict (list string) (list F)) : Prop :=
  default_factory d = Some [].

Record wf {F} (obj : NLTKCollocations.t F) : Prop := {
  wf_likelihood : list_factory (NLTKCollocations.likelihood_ration_dict obj);
  wf_chi_sq : list_factory (NLTKCollocations.chi_sq_dict obj);
  wf_pmi : list_factory (NLTKCollocations.pmi_dict obj)
}.

(** The request [has_item] sends for a phrase. *)
Definition request_for (self : Wikidata.t) (phrase : string) : Wikidata.request :=
  {| Wikidata.url := Wikidata.chr_url phrase;
     Wikidata.req_headers := Wikidata.headers self;
     Wikidata.req_proxies := Wikidata.proxies self |}.

(** A positive answer: status 200 and a body other than the empty-bindings
    payload. *)
Definition positive (r : Wikidata.Response) : Prop :=
  Wikidata.status_code r = 200%Z ∧ Wikidata.content r ≠ Wikidata.empty_result.

(** The query for a candidate yields a positive result. *)
Definition hit (requests_get : Wikidata.request → result Wikidata.Response)
    (self : Wikidata.t) (candidate : string) : Prop :=
  ∃ r, requests_get (request_for self candidate) = Ok r ∧ positive r.

(** The query for a candidate is answered, and not positively. *)
Definition miss (requests_get : Wikidata.request → result Wikidata.Response)
    (self : Wikidata.t) (candidate : string) : Prop :=
  ∃ r, requests_get (request_for self candidate) = Ok r ∧ ¬ positive r.

(** [hit], decided. *)
Definition hitb (requests_get : Wikidata.request → result Wikidata.Response)
    (self : Wikidata.t) (candidate : string) : bool :=
  match requests_get (request_for self candidate) with
  | Ok r => (Wikidata.status_code r =? 200)%Z
            && negb (String.eqb Wikidata.empty_result (Wikidata.content r))
  | Raise _ => false
  end.

(** A word has at least one sense entry in the lexical database. *)
Definition has_senses {Synset} (wordnet_synsets : string → list Synset)
    (word : string) : bool :=
  match wordnet_synsets word with
  | _ :: _ => true
  | [] => false
  end.

(** The scores listed for the bigram [(k0, k1)] in what [score_ngrams]
    returned, in the order listed. *)
Fixpoint scores_of {F} (k0 k1 : string) (scored : list ((string * string) * F))
  : list F :=
  match scored with
  | [] => []
  | ((a, b), s) :: rest =>
      if bool_decide (a = k0 ∧ b = k1) then s :: scores_of k0 k1 rest
      else scores_of k0 k1 rest
  end.

(** [sep.join(tokens)] for a one-character separator. *)
Fixpoint join (sep : ascii) (toks : list string) : string :=
  match toks with
  | [] => EmptyString
  | [t] => t
  | t :: rest => t +:+ String sep (join sep rest)
  end.

(** The number of occurrences of a character in a string. *)
Fixpoint count_char (c : ascii) (s : string) : nat :=
  match s with
  | EmptyString => 0
  | String a rest => (if Ascii.eqb a c then 1 else 0) + count_char c rest
  end.

(** What [get_similarity_score] makes of the model's answer for a pair of
    words: the similarity, [-1] for a [KeyError], any other exception
    passed on. *)
Definition similarity_result {F} (m : Word2Vec.KeyedVectors F)
    (w1 w2 : string) : result (num F) :=
  match Word2Vec.similarity m w1 w2 with
  | Ok f => Ok (Float f)
  | Raise KeyError => Ok (Int (-1))
  | Raise e => Raise e
  end.

(** ** Sample data

    Small concrete resources on which the statements are exercised.  Float
    values are drawn from [Q]. *)

(** Scored bigrams of a three-bigram corpus under the three measures. *)
Definition sample_scores : NLTKCollocations.corpus_scores Q :=
  {| NLTKCollocations.score_likelihood_ratio :=
       [ (("the", "cat"), 12 # 1); (("that", "that"), 3 # 1);
         (("a", "a"), 1 # 4) ]%Q;
     NLTKCollocations.score_chi_sq :=
       [ (("the", "cat"), 40 # 1); (("that", "that"), 7 # 2);
         (("a", "a"), 1 # 8) ]%Q;
     NLTKCollocations.score_pmi :=
       [ (("the", "cat"), 5 # 2); (("that", "that"), 3 # 2);
         (("a", "a"), 1 # 2) ]%Q |}.

(** An embedding model with a two-word vocabulary; [similarity] raises
    [KeyError] for a word it lacks, as the library does. *)
Definition sample_vocab : gset string := {[ "that"; "cat" ]}.

Definition sample_model : Word2Vec.KeyedVectors Q :=
  {| Word2Vec.truthy := true;
     Word2Vec.vocab := sample_vocab;
     Word2Vec.word_vec := fun w =>
       if String.eqb w "that" then [1 # 2; 1 # 3]%Q else [1 # 5; 1 # 7]%Q;
     Word2Vec.similarity := fun w1 w2 =>
       if bool_decide (w1 ∈ sample_vocab) && bool_decide (w2 ∈ sample_vocab)
       then Ok (if String.eqb w1 w2 then 1 # 1 else 1 # 4)%Q
       else Raise KeyError |}.

(** A loaded object whose truth value is false. *)
Definition falsy_model : Word2Vec.KeyedVectors Q :=
  {| Word2Vec.truthy := false;
     Word2Vec.vocab := ∅;
     Word2Vec.word_vec := fun _ => [];
     Word2Vec.similarity := fun _ _ => Raise KeyError |}.

Definition sample_word2vec : Word2Vec.t Q :=
  Word2Vec.init (fun _ => sample_model) "model.bin".

Definition unloaded_word2vec : Word2Vec.t Q :=
  Word2Vec.init (fun _ => falsy_model) "model.bin".

(** A network that knows [cat], has no binding for anything else, and
    cannot be reached for [down]. *)
Definition sample_wikidata : Wikidata.t := Wikidata.init None None.

Definition sample_network (rq : Wikidata.request) : result Wikidata.Response :=
  if String.eqb (Wikidata.url rq) (Wikidata.chr_url "cat") then
    Ok {| Wikidata.status_code := 200; Wikidata.content := "{ bindings }" |}
  else if String.eqb (Wikidata.url rq) (Wikidata.chr_url "down") then
    Raise (RequestException "connection refused")
  else
    Ok {| Wikidata.status_code := 200;
          Wikidata.content := Wikidata.empty_result |}.

Definition sample_candidates : list string := ["dog"; "dog"; "cat"; "bird"].


(** One admissible visiting order of [set(candidates)]. *)
Definition sample_set_iter (candidates : list string) : list string :=
  remove_dups candidates.

(** A lexical database with one entry, of two senses. *)
Definition sample_synsets (word : string) : list nat :=
  if String.eqb word "ice_cream" then [1; 2] else [].

(** The sample corpus with another likelihood-ratio listing. *)
Definition sample_scores_relisted : NLTKCollocations.corpus_scores Q :=
  {| NLTKCollocations.score_likelihood_ratio := [ (("the", "dog"), 9 # 1) ]%Q;
     NLTKCollocations.score_chi_sq :=
       NLTKCollocations.score_chi_sq sample_scores;
     NLTKCollocations.score_pmi :=
       NLTKCollocations.score_pmi sample_scores |}.

(** Another admissible visiting order of [set(candidates)]. *)
Definition sample_set_iter_reversed (candidates : list string) : list string :=
  reverse (remove_dups candidates).

(* ===================================================================== *)
(** * Part II.  Properties                                                *)
(* ===================================================================== *)

(** ** Strings *)

Lemma split_not_nil sep s : split sep s ≠ [].
Proof.
  destruct s as [|c rest]; simpl; [done|].
  destruct (Ascii.eqb c sep); [done|].
  by destruct (split sep rest).
Qed.

Lemma split_no_sep sep s : contains sep s = false → split sep s = [s].
Proof.
  induction s as [|c rest IH]; simpl; [done|].
  intros [Hc Hrest]%orb_false_iff.
  by rewrite Hc, (IH Hrest).
Qed.

Lemma split_app_sep sep t1 t2 :
  contains sep t1 = false →
  split sep (t1 +:+ String sep t2) = t1 :: split sep t2.
Proof.
  induction t1 as [|c rest IH]; simpl.
  - intros _. by rewrite Ascii.eqb_refl.
  - intros [Hc Hrest]%orb_false_iff. by rewrite Hc, (IH Hrest).
Qed.

Lemma split_pair sep t1 t2 :
  contains sep t1 = false → contains sep t2 = false →
  split sep (t1 +:+ String sep t2) = [t1; t2].
Proof.
  intros H1 H2. by rewrite split_app_sep, split_no_sep.
Qed.

Lemma length_chars s : length (chars s) = String.length s.
Proof. induction s; simpl; congruence. Qed.

Lemma tokens_pair t1 t2 :
  contains " " t1 = false → contains " " t2 = false →
  tokens (t1 +:+ String " " t2) = [t1; t2].
Proof. intros H1 H2. unfold tokens. by rewrite split_pair. Qed.

Lemma tokens_single_word w :
  contains " " w = false → tokens w = w :: chars w.
Proof. intros Hw. unfold tokens. by rewrite split_no_sep. Qed.

Lemma tokens_many phrase :
  2 < length (split " " phrase) → tokens phrase = split " " phrase.
Proof.
  unfold tokens. destruct (split " " phrase) as [|? [|? ?]]; simpl; [lia..|done].
Qed.

(** A word of two or more characters without a space becomes more than
    two tokens, the word and then each of its characters. *)
Lemma tokens_long_word w :
  contains " " w = false → 2 ≤ String.length w → 2 < length (tokens w).
Proof.
  intros Hw Hlen. rewrite tokens_single_word by done.
  simpl. rewrite length_chars. lia.
Qed.

(** A one-character word does become the pair of itself. *)
Lemma tokens_one_char (a : ascii) :
  a ≠ " "%char →
  tokens (String a EmptyString) = [String a EmptyString; String a EmptyString].
Proof.
  intros Ha. apply tokens_single_word. simpl.
  by rewrite orb_false_r, Ascii.eqb_neq.
Qed.

(** The token computation never fails and leaves the state alone: a split
    has a first token. *)
Lemma candidates_of_tokens {S} phrase (s : S) :
  NLTKCollocations.candidates_of phrase s = (Ok (tokens phrase), s).
Proof.
  unfold NLTKCollocations.candidates_of, tokens.
  pose proof (split_not_nil " " phrase) as Hne.
  destruct (split " " phrase) as [|c0 [|c1 rest]]; done.
Qed.

(** ** The bigram association scorer *)

Section BigramScorer.
Context {F : Type}.
Import NLTKCollocations.
Local Abbreviation table := (defaultdict (list string) (list F)).
Implicit Types (d : table) (obj : NLTKCollocations.t F)
  (key : list string) (phrase : string).

(** *** Lookups on a [defaultdict(list)] *)

Lemma getitem_list_factory d key :
  list_factory d → getitem key d = (Ok (scores_at d key), touch key d).
Proof.
  unfold list_factory, getitem, scores_at, touch. intros Hf.
  destruct (data d !! key); [done|]. by rewrite Hf.
Qed.

Lemma touch_factory d key : default_factory (touch key d) = default_factory d.
Proof. unfold touch. by destruct (data d !! key). Qed.

Lemma touch_lookup d key k :
  data (touch key d) !! k =
    if decide (k = key) then Some (scores_at d key) else data d !! k.
Proof.
  unfold touch, scores_at. destruct (data d !! key) as [v|] eqn:Hk; simpl.
  - case_decide; by subst.
  - rewrite lookup_insert. repeat case_decide; by subst.
Qed.

Lemma touch_scores_at d key k : scores_at (touch key d) k = scores_at d k.
Proof.
  unfold scores_at at 1. rewrite touch_lookup. by case_decide; subst.
Qed.

Lemma touch_kept d key k v :
  data d !! k = Some v → data (touch key d) !! k = Some v.
Proof.
  intros Hk. rewrite touch_lookup. case_decide; [|done].
  subst. unfold scores_at. by rewrite Hk.
Qed.

Lemma touch_new d key k :
  data d !! k = None → data (touch key d) !! k ≠ None →
  k = key ∧ data (touch key d) !! k = Some [].
Proof.
  rewrite touch_lookup. intros Hk. case_decide; [|done].
  subst. unfold scores_at. by rewrite Hk.
Qed.

Lemma touch_missing d key :
  data d !! key = None →
  data (touch key d) !! key = Some []
  ∧ dom (data (touch key d)) = {[ key ]} ∪ dom (data d).
Proof.
  intros Hk. unfold touch. rewrite Hk. simpl.
  by rewrite lookup_insert_eq, dom_insert_L.
Qed.

(** *** Construction *)

Lemma for_each_build_step_factory l d :
  default_factory (snd (for_each l build_step d)) = default_factory d.
Proof.
  revert d. induction l as [|[[k0 k1] sc] l IH]; intros d; [done|].
  simpl. unfold bind, getitem, modify, ret.
  destruct (data d !! [k0; k1]) as [v|]; [by rewrite IH|].
  destruct (default_factory d) eqn:Hf; [|done].
  rewrite IH. simpl. by rewrite Hf.
Qed.

Lemma build_bigram_score_dict_factory l :
  list_factory (build_bigram_score_dict (F:=F) l).
Proof. apply for_each_build_step_factory. Qed.

Lemma init_wf c : wf (init (F:=F) c).
Proof. split; apply build_bigram_score_dict_factory. Qed.

(** *** One call, computed *)

Lemma try_body_run key (fr : frame F) :
  wf (self fr) →
  try_body key fr =
    (Ok tt,
     {| self := {| likelihood_ration_dict := likelihood_ration_dict (self fr);
                   chi_sq_dict := touch key (chi_sq_dict (self fr));
                   pmi_dict := touch key (pmi_dict (self fr)) |};
        response_list :=
          response_list fr
            ++ [first_or_zero (scores_at (pmi_dict (self fr)) key)]
            ++ [first_or_zero (scores_at (chi_sq_dict (self fr)) key)] |}).
Proof.
  intros [_ Hchi Hpmi].
  unfold try_body, bind, pmi_dict_getitem, chi_sq_dict_getitem.
  rewrite (getitem_list_factory _ _ Hpmi).
  assert (∀ (l : list F) fr',
    append_first_or_zero l fr' =
      (Ok tt, {| self := self fr';
                 response_list := response_list fr' ++ [first_or_zero l] |}))
    as Happ by (by intros [|? ?] ?).
  rewrite Happ. simpl. rewrite (getitem_list_factory _ _ Hchi).
  rewrite Happ. simpl. by rewrite <- app_assoc.
Qed.

Lemma get_pmi_score_run phrase obj :
  wf obj →
  get_pmi_score phrase obj =
    (Ok [first_or_zero (scores_at (pmi_dict obj) (tokens phrase));
         first_or_zero (scores_at (chi_sq_dict obj) (tokens phrase))],
     {| likelihood_ration_dict := likelihood_ration_dict obj;
        chi_sq_dict := touch (tokens phrase) (chi_sq_dict obj);
        pmi_dict := touch (tokens phrase) (pmi_dict obj) |}).
Proof.
  intros Hwf. unfold get_pmi_score, get_pmi_score_frame, bind.
  rewrite candidates_of_tokens. unfold try_except_KeyError.
  by rewrite try_body_run.
Qed.

Lemma get_pmi_score_wf phrase obj : wf obj → wf (snd (get_pmi_score phrase obj)).
Proof.
  intros Hwf. rewrite (get_pmi_score_run _ _ Hwf). destruct Hwf.
  split; simpl; unfold list_factory; by rewrite ?touch_factory.
Qed.

(** *** A history of calls *)

Lemma after_calls_wf obj history : wf obj → wf (after_calls obj history).
Proof.
  revert obj. induction history as [|p history IH]; intros obj Hwf; [done|].
  apply IH. by apply get_pmi_score_wf.
Qed.

Lemma after_calls_scores_at obj history key :
  wf obj →
  scores_at (pmi_dict (after_calls obj history)) key = scores_at (pmi_dict obj) key
  ∧ scores_at (chi_sq_dict (after_calls obj history)) key
    = scores_at (chi_sq_dict obj) key.
Proof.
  revert obj. induction history as [|p history IH]; intros obj Hwf; [done|].
  simpl. destruct (IH _ (get_pmi_score_wf p _ Hwf)) as [-> ->].
  rewrite (get_pmi_score_run _ _ Hwf). simpl.
  by rewrite !touch_scores_at.
Qed.

Lemma get_pmi_score_absent obj phrase :
  wf obj →
  scores_at (pmi_dict obj) (tokens phrase) = [] →
  scores_at (chi_sq_dict obj) (tokens phrase) = [] →
  fst (get_pmi_score phrase obj) = Ok [Int 0; Int 0].
Proof.
  intros Hwf Hpmi Hchi. rewrite (get_pmi_score_run _ _ Hwf). simpl.
  by rewrite Hpmi, Hchi.
Qed.


(** *** Single words

    The extent of the character-wise extension of line 77. *)

Lemma for_each_build_step_keys l d :
  (∀ k v, data d !! k = Some v → length k = 2) →
  ∀ k v, data (snd (for_each l build_step d)) !! k = Some v → length k = 2.
Proof.
  revert d. induction l as [|[[k0 k1] sc] l IH]; intros d Hd; [done|].
  simpl. unfold bind, getitem, modify, ret.
  assert (∀ (x : list F) d', (∀ k v, data d' !! k = Some v → length k = 2) →
            ∀ k v, data (store [k0; k1] x d') !! k = Some v → length k = 2)
    as Hstore.
  { intros x d' Hd' k v. simpl. rewrite lookup_insert.
    case_decide; [by subst|apply Hd']. }
  destruct (data d !! [k0; k1]) as [v0|]; [by apply IH, Hstore|].
  destruct (default_factory d); [|done].
  by apply IH, Hstore, Hstore.
Qed.

(** The constructor only enters pairs. *)
Lemma build_bigram_score_dict_keys l k :
  length k ≠ 2 → scores_at (build_bigram_score_dict (F:=F) l) k = [].
Proof.
  intros Hk. unfold scores_at.
  destruct (data (build_bigram_score_dict l) !! k) as [v|] eqn:Hv; [|done].
  apply for_each_build_step_keys in Hv; done.
Qed.

(** X9: a word of two or more characters is scored [[0, 0]] on a
    constructed object, whatever the tables hold for the pair of the word
    with itself. *)
Lemma get_pmi_score_long_word (c : corpus_scores F) history w :
  contains " " w = false → 2 ≤ String.length w →
  fst (get_pmi_score w (after_calls (init c) history)) = Ok [Int 0; Int 0].
Proof.
  intros Hw Hlen. pose proof (tokens_long_word w Hw Hlen) as Htok.
  destruct (after_calls_scores_at (init c) history (tokens w) (init_wf c))
    as [Hp Hc].
  apply get_pmi_score_absent; [by apply after_calls_wf, init_wf|..].
  - rewrite Hp. apply build_bigram_score_dict_keys. lia.
  - rewrite Hc. apply build_bigram_score_dict_keys. lia.
Qed.

(** Phrases with the same tokens are scored alike. *)
Lemma get_pmi_score_same_tokens obj phrase1 phrase2 :
  wf obj → tokens phrase1 = tokens phrase2 →
  get_pmi_score phrase1 obj = get_pmi_score phrase2 obj.
Proof. intros Hwf Htok. by rewrite !get_pmi_score_run, Htok. Qed.

(** X10: a one-character word is scored exactly as the two-token phrase
    that repeats it, and leaves the object in the same state. *)
Lemma get_pmi_score_one_char obj (a : ascii) :
  wf obj → a ≠ " "%char →
  get_pmi_score (String a EmptyString) obj
  = get_pmi_score (String a EmptyString +:+ " " +:+ String a EmptyString) obj.
Proof.
  intros Hwf Ha. apply get_pmi_score_same_tokens; [done|].
  rewrite tokens_one_char by done. symmetry. apply tokens_pair; simpl;
    by rewrite orb_false_r, Ascii.eqb_neq.
Qed.

End BigramScorer.

Section BigramScorerClaims.
Context {F : Type}.
Import NLTKCollocations.
Implicit Types (c : corpus_scores F) (history : list string)
  (key : list string) (phrase : string).

(** C2 (as amended): after construction and any history of calls, a call
    of [get_pmi_score] leaves [likelihood_ration_dict] as it is and never
    changes or removes an entry of [pmi_dict] or [chi_sq_dict]; the only
    entry a call can add to either is the looked-up token tuple, with an
    empty score list, and when that tuple is missing from a table the call
    does add it, so the key set grows by exactly that tuple; what each
    table holds for any key, read with the empty list for a missing key,
    is the same before and after. *)
Theorem get_pmi_score_tables_frame c history phrase :
  let obj := after_calls (init c) history in
  let obj' := snd (get_pmi_score phrase obj) in
  likelihood_ration_dict obj' = likelihood_ration_dict obj
  ∧ (∀ k v, data (pmi_dict obj) !! k = Some v → data (pmi_dict obj') !! k = Some v)
  ∧ (∀ k v, data (chi_sq_dict obj) !! k = Some v →
            data (chi_sq_dict obj') !! k = Some v)
  ∧ (∀ k, data (pmi_dict obj) !! k = None → data (pmi_dict obj') !! k ≠ None →
          k = tokens phrase ∧ data (pmi_dict obj') !! k = Some [])
  ∧ (∀ k, data (chi_sq_dict obj) !! k = None →
          data (chi_sq_dict obj') !! k ≠ None →
          k = tokens phrase ∧ data (chi_sq_dict obj') !! k = Some [])
  ∧ (data (pmi_dict obj) !! tokens phrase = None →
       data (pmi_dict obj') !! tokens phrase = Some []
       ∧ dom (data (pmi_dict obj'))
         = {[ tokens phrase ]} ∪ dom (data (pmi_dict obj)))
  ∧ (data (chi_sq_dict obj) !! tokens phrase = None →
       data (chi_sq_dict obj') !! tokens phrase = Some []
       ∧ dom (data (chi_sq_dict obj'))
         = {[ tokens phrase ]} ∪ dom (data (chi_sq_dict obj)))
  ∧ (∀ k, scores_at (pmi_dict obj') k = scores_at (pmi_dict obj) k
          ∧ scores_at (chi_sq_dict obj') k = scores_at (chi_sq_dict obj) k).
Proof.
  intros obj obj'.
  assert (wf obj) as Hwf by apply after_calls_wf, init_wf.
  subst obj'. rewrite (get_pmi_score_run _ _ Hwf). simpl.
  split_and!; [done|..].
  - intros k v. apply touch_kept.
  - intros k v. apply touch_kept.
  - intros k. apply touch_new.
  - intros k. apply touch_new.
  - apply touch_missing.
  - apply touch_missing.
  - intros k. by rewrite !touch_scores_at.
Qed.

(** C4: a phrase made of two tokens whose pair is in neither the PMI nor
    the chi-square table built at construction makes [get_pmi_score]
    return the list [[0, 0]], whatever calls came before; no exception
    is raised. *)
Theorem get_pmi_score_absent_pair c history (t1 t2 : string) :
  contains " " t1 = false → contains " " t2 = false →
  data (pmi_dict (init c)) !! [t1; t2] = None →
  data (chi_sq_dict (init c)) !! [t1; t2] = None →
  fst (get_pmi_score (t1 +:+ " " +:+ t2) (after_calls (init c) history))
  = Ok [Int 0; Int 0].
Proof.
  intros Ht1 Ht2 Hpmi Hchi.
  change (" " +:+ t2) with (String " " t2).
  pose proof (init_wf c) as Hwf.
  destruct (after_calls_scores_at (init c) history [t1; t2] Hwf) as [Hp Hc].
  apply get_pmi_score_absent.
  - by apply after_calls_wf.
  - rewrite tokens_pair, Hp by done. unfold scores_at. by rewrite Hpmi.
  - rewrite tokens_pair, Hc by done. unfold scores_at. by rewrite Hchi.
Qed.

(** C10: on an object made by the constructor, after any history of
    calls and for every phrase, the body of the [try] in [get_pmi_score]
    runs to its end: both table lookups answer a list (the stored one, or
    the empty list for a missing key) and none raises.  So the
    [except KeyError] branch is never entered, and the [try] statement
    behaves the same with any handler in its place. *)
Theorem get_pmi_score_handler_unreachable c history phrase
    (h : Eff (frame F) unit) :
  let obj := after_calls (init c) history in
  let fr := {| self := obj; response_list := [] |} in
  candidates_of phrase fr = (Ok (tokens phrase), fr)
  ∧ fst (getitem (tokens phrase) (pmi_dict obj))
    = Ok (scores_at (pmi_dict obj) (tokens phrase))
  ∧ fst (getitem (tokens phrase) (chi_sq_dict obj))
    = Ok (scores_at (chi_sq_dict obj) (tokens phrase))
  ∧ fst (try_body (tokens phrase) fr) = Ok tt
  ∧ try_except_KeyError (try_body (tokens phrase)) h fr
    = try_body (tokens phrase) fr.
Proof.
  intros obj fr.
  assert (wf obj) as Hwf by apply after_calls_wf, init_wf.
  split_and!.
  - apply candidates_of_tokens.
  - by rewrite getitem_list_factory by apply Hwf.
  - by rewrite getitem_list_factory by apply Hwf.
  - by rewrite try_body_run.
  - unfold try_except_KeyError. by rewrite try_body_run.
Qed.

End BigramScorerClaims.

(** C2, counterexample: on the sample tables, scoring the phrase
    [red cat], whose pair is in no table, enters the pair into [pmi_dict]:
    the key set after the call differs from the key set before. *)
Lemma get_pmi_score_adds_key :
  dom (data (NLTKCollocations.pmi_dict
               (snd (NLTKCollocations.get_pmi_score "red cat"
                       (NLTKCollocations.init sample_scores)))))
  ≠ dom (data (NLTKCollocations.pmi_dict (NLTKCollocations.init sample_scores))).
Proof.
  intros Heq.
  assert (["red"; "cat"] ∈
          dom (data (NLTKCollocations.pmi_dict
                       (NLTKCollocations.init sample_scores)))) as Hin.
  { rewrite <- Heq. apply elem_of_dom. exists []. by vm_compute. }
  apply elem_of_dom in Hin as [v Hv]. by vm_compute in Hv.
Qed.

(** C4, witness: the pair (red, cat) is in no sample table; after an
    earlier call on the same phrase the scores are still [[0, 0]]. *)
Lemma get_pmi_score_absent_pair_witness :
  contains " " "red" = false
  ∧ contains " " "cat" = false
  ∧ data (NLTKCollocations.pmi_dict (NLTKCollocations.init sample_scores))
      !! ["red"; "cat"] = None
  ∧ data (NLTKCollocations.chi_sq_dict (NLTKCollocations.init sample_scores))
      !! ["red"; "cat"] = None
  ∧ fst (NLTKCollocations.get_pmi_score ("red" +:+ " " +:+ "cat")
           (NLTKCollocations.after_calls
              (NLTKCollocations.init sample_scores) ["red cat"]))
    = Ok [Int 0; Int 0].
Proof.
  split_and!; [by vm_compute..|].
  apply (get_pmi_score_absent_pair sample_scores ["red cat"] "red" "cat");
    by vm_compute.
Defined.

(** ** The embedding adapter *)

Section Embedding.
Context {F : Type}.
Import Word2Vec.
Implicit Types (self : Word2Vec.t F) (m : KeyedVectors F)
  (log : list (string * string)).

Lemma not_model_loaded self m :
  model self = Some m → truthy m = true → not_model self = false.
Proof. unfold not_model. by intros -> ->. Qed.

(** The constructor stores either nothing or a model that counts as
    true. *)
Lemma init_model load path m :
  model (init (F:=F) load path) = Some m → truthy m = true.
Proof.
  unfold init, load_word2vec_model_from_path. simpl.
  destruct (truthy (load path)) eqn:Ht; simpl; [|done]. by intros [= <-].
Qed.

(** X20: a word of two or more characters gets [-1] and the model is not
    asked, whatever the model holds for the word. *)
Lemma get_similarity_score_long_word self w log :
  contains " " w = false → 2 ≤ String.length w →
  get_similarity_score self w log = (Ok (Int (-1)), log).
Proof.
  intros Hw Hlen. unfold get_similarity_score, bind.
  rewrite split_no_sep by done.
  destruct w as [|a [|b w']]; simpl in *; [lia..|done].
Qed.

(** C3: a phrase that splits on spaces into more than two tokens gets
    the score [-1], and the list of calls made to the model is left as it
    was, whatever the model is. *)
Theorem get_similarity_score_many_tokens self noun_phrase log :
  2 < length (split " " noun_phrase) →
  get_similarity_score self noun_phrase log = (Ok (Int (-1)), log).
Proof.
  intros Hlen. unfold get_similarity_score, bind.
  destruct (split " " noun_phrase) as [|c0 [|c1 [|c2 rest]]]; simpl in *;
    first [lia | done].
Qed.

(** C5: whenever the model is absent (or counts as false) or the word is
    not in its vocabulary, [get_word_embedding] returns a vector of
    length 300 all of whose entries are the integer [-1]; when the model
    is there and has the word, it returns the model's vector for the
    word. *)
Theorem get_word_embedding_spec self word :
  (not_model self = true ∨ (∃ m, model self = Some m ∧ word ∉ vocab m) →
     length (get_word_embedding self word) = 300
     ∧ Forall (λ x, x = Int (-1)) (get_word_embedding self word))
  ∧ (∀ m, model self = Some m → truthy m = true → word ∈ vocab m →
       get_word_embedding self word = Float <$> word_vec m word).
Proof.
  assert (length (np_full_300_minus_1 (F:=F)) = 300
          ∧ Forall (λ x, x = Int (-1)) (np_full_300_minus_1 (F:=F)))
    as Hfull.
  { unfold np_full_300_minus_1. split; [apply length_replicate|].
    apply Forall_forall. by intros x [-> _]%elem_of_replicate. }
  unfold get_word_embedding, not_model. split.
  - intros [Habs | (m & Hm & Hword)].
    + destruct (model self) as [m|]; [|done]. by rewrite Habs.
    + rewrite Hm. destruct (negb (truthy m)); [done|].
      by rewrite bool_decide_eq_false_2.
  - intros m -> -> Hword. simpl. by rewrite bool_decide_eq_true_2.
Qed.

(** C9 (as amended): for the empty phrase, when the model is loaded and
    counts as true, [get_similarity_score] raises [IndexError], which the
    [except KeyError] handler lets through, and no call reaches the
    model; when the model is absent or counts as false, the guard inside
    the [try] comes first and the result is [-1]. *)
Theorem get_similarity_score_empty_phrase self log :
  get_similarity_score self EmptyString log
  = (if not_model self then Ok (Int (-1)) else Raise IndexError, log).
Proof.
  unfold get_similarity_score, not_model, try_except_KeyError, bind. simpl.
  destruct (model self) as [m|]; [|done].
  by destruct (truthy m).
Qed.

End Embedding.

(** C3, witness: a three-word phrase. *)
Lemma get_similarity_score_many_tokens_witness :
  2 < length (split " " "big red cat")
  ∧ Word2Vec.get_similarity_score sample_word2vec "big red cat" []
    = (Ok (Int (-1)), []).
Proof.
  split; [vm_compute; lia|].
  apply (get_similarity_score_many_tokens sample_word2vec "big red cat" []).
  vm_compute; lia.
Defined.

(** C9, counterexample: with a model that did not load, the empty phrase
    gets the score [-1]; nothing is raised. *)
Lemma get_similarity_score_empty_phrase_unloaded :
  Word2Vec.get_similarity_score unloaded_word2vec EmptyString []
  = (Ok (Int (-1)), []).
Proof. reflexivity. Qed.

(** C1, at the failing input: the single word [that] is looked up as the
    five-token tuple (that, t, h, a, t), not as the pair (that, that).  The
    bigram scorer answers [[0, 0]] for it although the pair has scores, which
    the two-token form [that that] gets; the similarity scorer answers [-1]
    without a call to the model, where the two-token form gets the model's
    similarity of the word with itself. *)
Theorem single_word_is_not_self_paired :
  tokens "that" = ["that"; "t"; "h"; "a"; "t"]
  ∧ tokens "that that" = ["that"; "that"]
  ∧ fst (NLTKCollocations.get_pmi_score "that"
           (NLTKCollocations.init sample_scores))
    = Ok [Int 0; Int 0]
  ∧ fst (NLTKCollocations.get_pmi_score "that that"
           (NLTKCollocations.init sample_scores))
    = Ok [Float (3 # 2)%Q; Float (7 # 2)%Q]
  ∧ Word2Vec.get_similarity_score sample_word2vec "that" []
    = (Ok (Int (-1)), [])
  ∧ Word2Vec.get_similarity_score sample_word2vec "that that" []
    = (Ok (Float (1 # 1)%Q), [("that", "that")]).
Proof. split_and!; by vm_compute. Qed.

(** ** Loops that leave at the first hit *)

Lemma bind_unfold {S A B} (m : Eff S A) (k : A → Eff S B) (s : S) :
  bind m k s = match m s with
               | (Ok a, s') => k a s'
               | (Raise e, s') => (Raise e, s')
               end.
Proof. reflexivity. Qed.

Lemma for_each_cons {S A B} (x : A) (xs : list A)
    (body : A → Eff S (option B)) (s : S) :
  for_each (x :: xs) body s
  = match body x s with
    | (Ok (Some v), s') => (Ok (Some v), s')
    | (Ok None, s') => for_each xs body s'
    | (Raise e, s') => (Raise e, s')
    end.
Proof. simpl. unfold bind. by destruct (body x s) as [[[v|]|e] s']. Qed.

Section Loops.
Context {A B E : Type}.
Implicit Types (p : A → bool) (ev : A → E) (xs : list A)
  (body : A → Eff (list E) (option B)) (log : list E).

Lemma upto_first_prefix p xs : upto_first p xs `prefix_of` xs.
Proof.
  induction xs as [|x xs IH]; simpl; [done|].
  destruct (p x).
  - by exists xs.
  - by apply prefix_cons.
Qed.

Lemma upto_first_hit p xs :
  existsb p xs = true →
  ∃ pre c, upto_first p xs = pre ++ [c] ∧ p c = true
           ∧ ∀ x, x ∈ pre → p x = false.
Proof.
  induction xs as [|x xs IH]; simpl; [done|].
  destruct (p x) eqn:Hx; simpl.
  - intros _. exists [], x. split_and!; [done..|]. by intros ? ?%elem_of_nil.
  - intros (pre & c & -> & Hc & Hpre)%IH. exists (x :: pre), c.
    split_and!; [done..|]. intros y [->|Hy]%elem_of_cons; auto.
Qed.

Lemma upto_first_no_hit p xs : existsb p xs = false → upto_first p xs = xs.
Proof.
  induction xs as [|x xs IH]; simpl; [done|].
  destruct (p x); simpl; [done|]. by intros ->%IH.
Qed.

Lemma upto_first_NoDup p xs : NoDup xs → NoDup (upto_first p xs).
Proof.
  intros Hnd. destruct (upto_first_prefix p xs) as [k Hk].
  rewrite Hk in Hnd. by apply NoDup_app in Hnd as [? _].
Qed.

(** A loop whose body always returns, leaving with [v] exactly on the
    elements satisfying [p], visits the elements up to the first hit. *)
Lemma for_each_upto_first p (v : B) ev body xs log :
  (∀ x log', x ∈ xs →
     body x log' = (Ok (if p x then Some v else None), log' ++ [ev x])) →
  for_each xs body log
  = (Ok (if existsb p xs then Some v else None),
     log ++ (ev <$> upto_first p xs)).
Proof.
  revert log. induction xs as [|x xs IH]; intros log Hbody; simpl.
  - by rewrite app_nil_r.
  - unfold bind. rewrite Hbody by left.
    destruct (p x); simpl; [done|].
    rewrite IH by (intros; apply Hbody; by right).
    by rewrite <- app_assoc.
Qed.

(** A loop whose body raises on an element, having fallen through on all
    elements before it, raises the same exception there. *)
Lemma for_each_raises ev body pre c post e log :
  (∀ x log', x ∈ pre → body x log' = (Ok None, log' ++ [ev x])) →
  (∀ log', body c log' = (Raise e, log' ++ [ev c])) →
  for_each (pre ++ c :: post) body log
  = (Raise e, log ++ (ev <$> pre ++ [c])).
Proof.
  intros Hpre Hc. revert log.
  induction pre as [|x pre IH]; intros log; simpl; unfold bind.
  - by rewrite Hc.
  - rewrite Hpre by left. rewrite IH by (intros; apply Hpre; by right).
    by rewrite <- app_assoc.
Qed.
End Loops.

(** ** The knowledge-base existence checker *)

Section KnowledgeBase.
Import Wikidata.
Variable requests_get : request → result Response.
Variable set_iter : list string → list string.
Implicit Types (self : Wikidata.t) (log : list request) (r : Response).

Lemma positive_decide r :
  (status_code r =? 200)%Z && negb (String.eqb empty_result (content r)) = true
  ↔ positive r.
Proof.
  unfold positive.
  rewrite andb_true_iff, negb_true_iff, Z.eqb_eq, String.eqb_neq.
  split; intros [Hs Hc]; (split; [done|]); intros Heq; by apply Hc.
Qed.




Lemma has_item_answered self phrase r log :
  requests_get (request_for self phrase) = Ok r →
  has_item requests_get self phrase log
  = (Ok (hitb requests_get self phrase), log ++ [request_for self phrase]).
Proof.
  intros Hr. unfold has_item, bind, get, hitb.
  fold (request_for self phrase). rewrite Hr.
  by destruct (_ && _).
Qed.

Lemma has_item_raises self phrase e log :
  requests_get (request_for self phrase) = Raise e →
  has_item requests_get self phrase log
  = (Raise e, log ++ [request_for self phrase]).
Proof.
  intros Hr. unfold has_item, bind, get.
  fold (request_for self phrase). by rewrite Hr.
Qed.











(** C8: when [requests.get] raises for the request of a phrase,
    [has_item] raises that same exception after that one request, and so
    does [find_wikidata_existence] when the candidate is reached (every
    candidate visited before it having been answered negatively): the
    request is sent once, no later candidate is tried, and no value is
    returned. *)
Theorem transport_error_propagates self e :
  (∀ phrase log,
     requests_get (request_for self phrase) = Raise e →
     has_item requests_get self phrase log
     = (Raise e, log ++ [request_for self phrase]))
  ∧ (∀ candidates pre c post log,
       set_iter candidates = pre ++ c :: post →
       (∀ x, x ∈ pre → miss requests_get self x) →
       requests_get (request_for self c) = Raise e →
       find_wikidata_existence requests_get set_iter self candidates log
       = (Raise e, log ++ (request_for self <$> pre ++ [c]))).
Proof.
  split; [intros; by apply has_item_raises|].
  intros candidates pre c post log Hiter Hpre Hc.
  unfold find_wikidata_existence. rewrite bind_unfold, Hiter.
  rewrite (for_each_raises (request_for self) _ pre c post e); [done|..].
  - intros x log' (r & Hr & Hneg)%Hpre.
    unfold bind. rewrite (has_item_answered _ _ _ _ Hr).
    destruct (hitb requests_get self x) eqn:Hb; [|done].
    exfalso. apply Hneg. apply positive_decide.
    unfold hitb in Hb. by rewrite Hr in Hb.
  - intros log'. unfold bind. by rewrite (has_item_raises _ _ _ _ Hc).
Qed.

End KnowledgeBase.


(** C8, witness: the network cannot be reached for [down]; the candidate
    before it misses, the one after it is never asked. *)
Lemma transport_error_propagates_witness :
  Wikidata.has_item sample_network sample_wikidata "down" []
  = (Raise (RequestException "connection refused"),
     [request_for sample_wikidata "down"])
  ∧ Wikidata.find_wikidata_existence sample_network sample_set_iter
      sample_wikidata ["dog"; "down"; "cat"] []
    = (Raise (RequestException "connection refused"),
       request_for sample_wikidata <$> ["dog"; "down"]).
Proof.
  destruct (transport_error_propagates sample_network sample_set_iter
              sample_wikidata (RequestException "connection refused"))
    as [Hitem Hfind].
  split.
  - apply (Hitem "down" []). by vm_compute.
  - apply (Hfind ["dog"; "down"; "cat"] ["dog"] "down" ["cat"] []).
    + by vm_compute.
    + intros x ->%list_elem_of_singleton.
      eexists. split; [by vm_compute|]. intros [_ Hbody]. by apply Hbody.
    + by vm_compute.
Defined.

(** ** The lexical-database existence checker *)

Lemma replace_no_old old new s :
  old ≠ new → contains old (replace old new s) = false.
Proof.
  intros Hne. induction s as [|c rest IH]; simpl; [done|].
  rewrite IH, orb_false_r.
  destruct (Ascii.eqb c old) eqn:Hc; [|done].
  apply Ascii.eqb_neq. congruence.
Qed.

Lemma replace_no_occurrence old new s :
  contains old s = false → replace old new s = s.
Proof.
  induction s as [|c rest IH]; simpl; [done|].
  intros [Hc Hrest]%orb_false_iff. by rewrite Hc, IH.
Qed.

Lemma replace_length old new s :
  String.length (replace old new s) = String.length s.
Proof. induction s; simpl; congruence. Qed.

Lemma replace_get old new s i :
  String.get i (replace old new s)
  = match String.get i s with
    | Some ch => Some (if Ascii.eqb ch old then new else ch)
    | None => None
    end.
Proof.
  revert i. induction s as [|c rest IH]; intros i; simpl; [done|].
  destruct i as [|i]; [done|]. apply IH.
Qed.

Lemma upto_first_fmap {A B} (f : A → B) (q : B → bool) (xs : list A) :
  f <$> upto_first (q ∘ f) xs = upto_first q (f <$> xs).
Proof.
  induction xs as [|x xs IH]; simpl; [done|].
  destruct (q (f x)); simpl; [done|]. f_equal. apply IH.
Qed.

Lemma existsb_fmap {A B} (f : A → B) (q : B → bool) (xs : list A) :
  existsb (q ∘ f) xs = existsb q (f <$> xs).
Proof. induction xs as [|x xs IH]; simpl; [done|]. f_equal. apply IH. Qed.

Section LexicalDatabase.
Import Wordnet.
Context {Synset : Type}.
Variable wordnet_synsets : string → list Synset.
Implicit Types (candidates : list string) (log : list string).

Local Abbreviation sensed := (has_senses wordnet_synsets).

Lemma has_senses_true word : sensed word = true ↔ wordnet_synsets word ≠ [].
Proof. unfold has_senses. by destruct (wordnet_synsets word). Qed.

Lemma has_senses_false word : sensed word = false ↔ wordnet_synsets word = [].
Proof. unfold has_senses. by destruct (wordnet_synsets word). Qed.

(** C7: [find_wordnet_existence] looks up the candidates in list order,
    each in its form with every space replaced by an underscore, and
    stops at the first one that has a sense entry, returning 1; when no
    candidate has one it has looked them all up and returns 0.  The form
    looked up has the length of the candidate and, at every position, an
    underscore where the candidate has a space and the candidate's own
    character elsewhere. *)
Theorem find_wordnet_existence_spec candidates log :
  let words := replace " " "_" <$> candidates in
  ∃ res queried,
    find_wordnet_existence wordnet_synsets candidates log
    = (Ok res, log ++ queried)
    ∧ queried `prefix_of` words
    ∧ length words = length candidates
    ∧ (∀ n candidate,
         candidates !! n = Some candidate →
         ∃ w, words !! n = Some w
              ∧ String.length w = String.length candidate
              ∧ ∀ i, String.get i w
                     = match String.get i candidate with
                       | Some ch => Some (if Ascii.eqb ch " " then "_"%char
                                          else ch)
                       | None => None
                       end)
    ∧ (∀ w, w ∈ words → contains " " w = false)
    ∧ (res = 1 ∨ res = 0)%Z
    ∧ (res = 1%Z ↔ ∃ w, w ∈ words ∧ wordnet_synsets w ≠ [])
    ∧ (res = 1%Z →
         ∃ pre w, queried = pre ++ [w] ∧ wordnet_synsets w ≠ []
                  ∧ ∀ x, x ∈ pre → wordnet_synsets x = [])
    ∧ (res = 0%Z →
         queried = words ∧ ∀ w, w ∈ words → wordnet_synsets w = []).
Proof.
  intros words.
  assert (find_wordnet_existence wordnet_synsets candidates log
          = (Ok (if existsb sensed words then 1%Z else 0%Z),
             log ++ upto_first sensed words)) as Hrun.
  { unfold find_wordnet_existence. rewrite bind_unfold.
    rewrite (for_each_upto_first (sensed ∘ replace " " "_") 1%Z
               (replace " " "_")).
    - subst words. rewrite existsb_fmap, upto_first_fmap.
      by destruct (existsb _ _).
    - intros c log' _. unfold bind, synsets, has_senses. simpl.
      by destruct (wordnet_synsets _). }
  assert (∀ w, w ∈ words → contains " " w = false) as Hwords.
  { intros w (c & -> & _)%list_elem_of_fmap. by apply replace_no_old. }
  exists (if existsb sensed words then 1%Z else 0%Z),
         (upto_first sensed words).
  split_and!; [done|apply upto_first_prefix|apply length_fmap| |done
              |by destruct (existsb _ _); auto|..].
  { intros n candidate Hn. exists (replace " " "_" candidate).
    split_and!; [|apply replace_length|intros i; apply replace_get].
    subst words. by rewrite list_lookup_fmap, Hn. }
  all: destruct (existsb sensed words) eqn:Hex.
  - split; [|done]. intros _.
    apply existsb_exists in Hex as (w & Hw%list_elem_of_In & Hs%has_senses_true).
    eauto.
  - split; [done|]. intros (w & Hw%list_elem_of_In & Hs%has_senses_true).
    assert (existsb sensed words = true) by (apply existsb_exists; eauto).
    congruence.
  - intros _. destruct (upto_first_hit _ _ Hex) as (pre & w & -> & Hw & Hpre).
    exists pre, w. split_and!; [done|by apply has_senses_true|].
    intros x Hx. by apply has_senses_false, Hpre.
  - done.
  - done.
  - intros _. split; [by apply upto_first_no_hit|].
    intros w Hw%list_elem_of_In. apply has_senses_false.
    destruct (sensed w) eqn:Hs; [|done].
    assert (existsb sensed words = true) by (apply existsb_exists; eauto).
    congruence.
Qed.

End LexicalDatabase.

(** C7, on the sample database: the second candidate is found under its
    underscore form and the third is never looked up. *)
Lemma find_wordnet_existence_sample :
  Wordnet.find_wordnet_existence sample_synsets
    ["frozen ice"; "ice cream"; "cream"] []
  = (Ok 1%Z, ["frozen_ice"; "ice_cream"]).
Proof. reflexivity. Qed.


(* ===================================================================== *)
(** * Part III.  Further properties of the adapters                       *)
(* ===================================================================== *)

(** ** Splitting a phrase (lines 73 and 221) *)

Lemma join_cons sep t toks :
  toks ≠ [] → join sep (t :: toks) = t +:+ String sep (join sep toks).
Proof. by destruct toks. Qed.

Lemma split_single sep s t : split sep s = [t] → t = s ∧ contains sep s = false.
Proof.
  revert t. induction s as [|c rest IH]; intros t; simpl.
  - by intros [= <-].
  - destruct (Ascii.eqb c sep) eqn:Hc.
    + intros [= _ Hnil]. by destruct (split_not_nil sep rest).
    + destruct (split sep rest) as [|tok toks] eqn:Hs;
        [by destruct (split_not_nil sep rest)|].
      intros [= <- ->]. by destruct (IH tok eq_refl) as [-> ->].
Qed.

(** X1: splitting on spaces loses nothing and cuts at every space: the
    tokens joined by single spaces give the phrase back, no token contains
    a space, and there is one token more than there are spaces. *)
Theorem split_join phrase :
  join " " (split " " phrase) = phrase
  ∧ Forall (λ t, contains " " t = false) (split " " phrase)
  ∧ length (split " " phrase) = S (count_char " " phrase).
Proof.
  induction phrase as [|c rest (IHj & IHc & IHl)]; simpl.
  - by repeat constructor.
  - pose proof (split_not_nil " " rest) as Hne.
    destruct (Ascii.eqb c " ") eqn:Hc.
    + apply Ascii.eqb_eq in Hc as ->.
      rewrite join_cons, IHj by done. simpl. split_and!; [done| |by rewrite IHl].
      by constructor.
    + destruct (split " " rest) as [|tok toks]; [done|].
      split_and!.
      * rewrite <- IHj. by destruct toks.
      * apply Forall_cons in IHc as [Htok Htoks].
        constructor; [|done]. simpl. by rewrite Hc, Htok.
      * done.
Qed.

(** ** The bigram tables and their scorer, end to end *)

Section BigramTables.
Context {F : Type}.
Import NLTKCollocations.
Local Abbreviation table := (defaultdict (list string) (list F)).
Implicit Types (d : table) (obj : NLTKCollocations.t F)
  (c : corpus_scores F) (history : list string)
  (key : list string) (phrase : string)
  (l : list ((string * string) * F)).

Lemma build_step_run d k0 k1 (s : F) :
  list_factory d →
  build_step ((k0, k1), s) d
  = (Ok None,
     store [k0; k1] (scores_at d [k0; k1] ++ [s]) (touch [k0; k1] d)).
Proof.
  intros Hf. unfold build_step. rewrite bind_unfold.
  by rewrite getitem_list_factory.
Qed.

Lemma store_touch_lookup d key (v : list F) k :
  data (store key v (touch key d)) !! k
  = if decide (k = key) then Some v else data d !! k.
Proof.
  simpl. rewrite lookup_insert, touch_lookup.
  repeat case_decide; by subst.
Qed.

Lemma for_each_build_step_lookup l d a b :
  list_factory d →
  data (snd (for_each l build_step d)) !! [a; b]
  = match scores_of a b l with
    | [] => data d !! [a; b]
    | new => Some (scores_at d [a; b] ++ new)
    end.
Proof.
  revert d. induction l as [|[[k0 k1] s] l IH]; intros d Hf; [done|].
  rewrite for_each_cons, build_step_run by done.
  set (d1 := store [k0; k1] (scores_at d [k0; k1] ++ [s]) (touch [k0; k1] d)).
  assert (list_factory d1) as Hf1
    by (unfold list_factory, d1; simpl; by rewrite touch_factory).
  rewrite (IH d1 Hf1). unfold scores_at at 1. subst d1.
  rewrite !store_touch_lookup. simpl scores_of.
  case_bool_decide as Hk.
  - destruct Hk as [-> ->]. rewrite decide_True by done. simpl.
    destruct (scores_of a b l); [done|]. by rewrite <- app_assoc.
  - rewrite decide_False by (intros [= -> ->]; by apply Hk).
    by destruct (scores_of a b l).
Qed.

(** X2: the table that [build_bigram_score_dict] makes has an entry exactly
    for the bigrams that [score_ngrams] listed, each holding all the scores
    listed for it, in order; it has no key that is not a pair and stores no
    empty list. *)
Theorem build_bigram_score_dict_lookup l key :
  data (build_bigram_score_dict l) !! key
  = match key with
    | [a; b] => match scores_of a b l with
                | [] => None
                | listed => Some listed
                end
    | _ => None
    end.
Proof.
  assert (length key ≠ 2 → data (build_bigram_score_dict l) !! key = None)
    as Hother.
  { intros Hlen.
    destruct (data (build_bigram_score_dict l) !! key) as [v|] eqn:Hv; [|done].
    apply for_each_build_step_keys in Hv; done. }
  destruct key as [|a [|b [|x key]]]; [by apply Hother..| |by apply Hother].
  unfold build_bigram_score_dict.
  by rewrite for_each_build_step_lookup.
Qed.

Lemma build_bigram_score_dict_scores_at l a b :
  scores_at (build_bigram_score_dict l) [a; b] = scores_of a b l.
Proof.
  unfold scores_at, build_bigram_score_dict.
  rewrite for_each_build_step_lookup by done.
  by destruct (scores_of a b l).
Qed.

(** What a constructed object answers, whatever was asked before. *)
Lemma get_pmi_score_constructed c history phrase :
  fst (get_pmi_score phrase (after_calls (init c) history))
  = Ok [first_or_zero
          (scores_at (build_bigram_score_dict (score_pmi c)) (tokens phrase));
        first_or_zero
          (scores_at (build_bigram_score_dict (score_chi_sq c)) (tokens phrase))].
Proof.
  pose proof (init_wf c) as Hwf.
  rewrite get_pmi_score_run by by apply after_calls_wf.
  destruct (after_calls_scores_at (init c) history (tokens phrase) Hwf)
    as [-> ->].
  done.
Qed.

(** X3: on a constructed object, a phrase of two tokens is scored with the
    first PMI score and the first chi-square score that [score_ngrams]
    listed for that pair, each replaced by the integer 0 when the pair was
    not listed; earlier calls do not matter. *)
Theorem get_pmi_score_pair c history (t1 t2 : string) :
  contains " " t1 = false → contains " " t2 = false →
  fst (get_pmi_score (t1 +:+ " " +:+ t2) (after_calls (init c) history))
  = Ok [first_or_zero (scores_of t1 t2 (score_pmi c));
        first_or_zero (scores_of t1 t2 (score_chi_sq c))].
Proof.
  intros Ht1 Ht2. change (" " +:+ t2) with (String " " t2).
  rewrite get_pmi_score_constructed, tokens_pair by done.
  by rewrite !build_bigram_score_dict_scores_at.
Qed.

(** X4: the answer of [get_pmi_score] does not depend on the calls made
    before: the entries that lookups add to the tables never change a
    score. *)
Theorem get_pmi_score_history_independent c history phrase :
  fst (get_pmi_score phrase (after_calls (init c) history))
  = fst (get_pmi_score phrase (init c)).
Proof.
  rewrite get_pmi_score_constructed.
  by rewrite (get_pmi_score_run _ _ (init_wf c)).
Qed.

Lemma touch_idemp d key : touch key (touch key d) = touch key d.
Proof.
  unfold touch. destruct (data d !! key) as [v|] eqn:Hk; simpl.
  - by rewrite Hk.
  - by rewrite lookup_insert_eq.
Qed.

(** X5: scoring the same phrase again gives the same answer and leaves
    the object exactly as the first call left it: the tables grow at most
    once per looked-up tuple. *)
Theorem get_pmi_score_twice c history phrase :
  let obj := after_calls (init c) history in
  get_pmi_score phrase (snd (get_pmi_score phrase obj))
  = get_pmi_score phrase obj.
Proof.
  intros obj.
  assert (wf obj) as Hwf by apply after_calls_wf, init_wf.
  rewrite (get_pmi_score_run phrase (snd _))
    by by apply get_pmi_score_wf.
  rewrite (get_pmi_score_run _ _ Hwf). simpl.
  by rewrite !touch_scores_at, !touch_idemp.
Qed.

(** X6: on a constructed object [get_pmi_score] never raises and always
    returns a list of exactly two numbers.  The first is the float that
    heads the list [pmi_dict] holds for the looked-up tuple, or the integer
    0 when the table holds no score for it; the second is the same for
    [chi_sq_dict]. *)
Theorem get_pmi_score_two_numbers c history phrase :
  let obj := after_calls (init c) history in
  ∃ x y,
    fst (get_pmi_score phrase obj) = Ok [x; y]
    ∧ (x = Int 0 ∧ scores_at (pmi_dict obj) (tokens phrase) = []
       ∨ ∃ f rest, x = Float f
                   ∧ data (pmi_dict obj) !! tokens phrase = Some (f :: rest))
    ∧ (y = Int 0 ∧ scores_at (chi_sq_dict obj) (tokens phrase) = []
       ∨ ∃ f rest, y = Float f
                   ∧ data (chi_sq_dict obj) !! tokens phrase = Some (f :: rest)).
Proof.
  intros obj.
  assert (wf obj) as Hwf by apply after_calls_wf, init_wf.
  rewrite (get_pmi_score_run _ _ Hwf). simpl.
  assert (∀ d : table,
    first_or_zero (scores_at d (tokens phrase)) = Int 0
    ∧ scores_at d (tokens phrase) = []
    ∨ ∃ f rest, first_or_zero (scores_at d (tokens phrase)) = Float f
                ∧ data d !! tokens phrase = Some (f :: rest)) as Hnum.
  { intros d. unfold scores_at.
    destruct (data d !! tokens phrase) as [[|f rest]|]; simpl; eauto. }
  eauto.
Qed.

(** X7: a phrase of three or more tokens is scored [[0, 0]] on a
    constructed object: the tables hold pairs only. *)
Theorem get_pmi_score_many_tokens c history phrase :
  2 < length (split " " phrase) →
  fst (get_pmi_score phrase (after_calls (init c) history)) = Ok [Int 0; Int 0].
Proof.
  intros Hlen. rewrite get_pmi_score_constructed.
  rewrite !build_bigram_score_dict_keys; [done|rewrite tokens_many by done; lia..].
Qed.

(** X8: [likelihood_ration_dict] is built but never read: two corpora with
    the same PMI and chi-square listings are scored alike, whatever their
    likelihood-ratio listings. *)
Theorem get_pmi_score_ignores_likelihood_ratio c c' history phrase :
  score_pmi c = score_pmi c' → score_chi_sq c = score_chi_sq c' →
  fst (get_pmi_score phrase (after_calls (init c) history))
  = fst (get_pmi_score phrase (after_calls (init c') history)).
Proof. intros Hp Hc. by rewrite !get_pmi_score_constructed, Hp, Hc. Qed.

End BigramTables.

(** ** The query text *)

Lemma append_inj_l (s a b : string) : s +:+ a = s +:+ b → a = b.
Proof. induction s as [|c s IH]; simpl; [done|]. intros [= H]. auto. Qed.

Lemma append_length (a b : string) :
  String.length (a +:+ b) = String.length a + String.length b.
Proof. induction a as [|c a IH]; simpl; [done|]. by rewrite IH. Qed.

Lemma append_inj_r (a b s : string) : a +:+ s = b +:+ s → a = b.
Proof.
  revert b. induction a as [|c a IH]; intros [|c' b] Heq; [done|..].
  - apply (f_equal String.length) in Heq.
    rewrite !append_length in Heq. simpl in Heq. lia.
  - apply (f_equal String.length) in Heq.
    rewrite !append_length in Heq. simpl in Heq. lia.
  - change (String c (a +:+ s) = String c' (b +:+ s)) in Heq.
    injection Heq as -> Heq. f_equal. by apply IH.
Qed.

(** Two phrases give the same URL only when they are the same phrase. *)
Lemma chr_url_inj phrase1 phrase2 :
  Wikidata.chr_url phrase1 = Wikidata.chr_url phrase2 ↔ phrase1 = phrase2.
Proof.
  split; [|by intros ->]. unfold Wikidata.chr_url.
  intros Heq%append_inj_l. by apply append_inj_r in Heq.
Qed.

Lemma substring_append_whole (a b : string) :
  String.substring 0 (String.length a) (a +:+ b) = a.
Proof.
  induction a as [|c a IH]; [by destruct b|].
  change (String c a +:+ b) with (String c (a +:+ b)). simpl. by rewrite IH.
Qed.

Lemma substring_append_skip (a b : string) n m :
  String.substring (String.length a + n) m (a +:+ b) = String.substring n m b.
Proof.
  induction a as [|c a IH]; [done|].
  change (String c a +:+ b) with (String c (a +:+ b)). simpl. apply IH.
Qed.

Lemma substring_whole (a : string) :
  String.substring 0 (String.length a) a = a.
Proof. induction a as [|c a IH]; simpl; [done|]. by rewrite IH. Qed.

(** X11: [has_item] sends one request, whatever the network does, and its
    URL is a fixed head of 183 characters, then the phrase itself, character
    for character with nothing escaped, then a fixed tail of 150
    characters; the head and the tail do not depend on the phrase, and no
    other phrase gives the same URL. *)
Theorem has_item_url
    (requests_get : Wikidata.request → result Wikidata.Response)
    (self : Wikidata.t) (phrase : string) (log : list Wikidata.request) :
  ∃ rq,
    snd (Wikidata.has_item requests_get self phrase log) = log ++ [rq]
    ∧ String.length Wikidata.chr_url_prefix = 183
    ∧ String.length Wikidata.chr_url_suffix = 150
    ∧ String.length (Wikidata.url rq) = 183 + String.length phrase + 150
    ∧ String.substring 0 183 (Wikidata.url rq) = Wikidata.chr_url_prefix
    ∧ String.substring 183 (String.length phrase) (Wikidata.url rq) = phrase
    ∧ String.substring (183 + String.length phrase) 150 (Wikidata.url rq)
      = Wikidata.chr_url_suffix
    ∧ (∀ phrase', Wikidata.chr_url phrase' = Wikidata.url rq ↔ phrase' = phrase)
    ∧ Wikidata.req_headers rq = Wikidata.headers self
    ∧ Wikidata.req_proxies rq = Wikidata.proxies self.
Proof.
  assert (String.length Wikidata.chr_url_prefix = 183) as Hhead by done.
  assert (String.length Wikidata.chr_url_suffix = 150) as Htail by done.
  exists (request_for self phrase).
  split.
  { destruct (requests_get (request_for self phrase)) as [r|e] eqn:Hr.
    - by rewrite (has_item_answered _ _ _ r).
    - by rewrite (has_item_raises _ _ _ e). }
  split_and!;
    [done|done|..|intros phrase'; apply (chr_url_inj phrase' phrase)|done|done];
    unfold request_for, Wikidata.chr_url; cbn [Wikidata.url].
  - by rewrite !append_length, Hhead, Htail, Nat.add_assoc.
  - rewrite <- Hhead. apply substring_append_whole.
  - rewrite <- Hhead.
    rewrite <- (Nat.add_0_r (String.length Wikidata.chr_url_prefix)).
    rewrite substring_append_skip. apply substring_append_whole.
  - rewrite <- Hhead, <- Htail, substring_append_skip.
    rewrite <- (Nat.add_0_r (String.length phrase)).
    rewrite substring_append_skip. apply substring_whole.
Qed.

(** ** The knowledge-base checker under any network *)

Lemma existsb_same_elements {A} (p : A → bool) (l1 l2 : list A) :
  (∀ x, x ∈ l1 ↔ x ∈ l2) → existsb p l1 = existsb p l2.
Proof.
  intros Hsame. apply eq_true_iff_eq. rewrite !existsb_exists.
  split; intros (x & Hx%list_elem_of_In & Hp); exists x;
    (split; [apply list_elem_of_In, Hsame|]; done).
Qed.

Section KnowledgeBaseAnyNetwork.
Import Wikidata.
Variable requests_get : request → result Response.
Implicit Types (self : Wikidata.t) (log : list request)
  (set_iter : list string → list string).

(** The body of the loop of [find_wikidata_existence]. *)
Local Abbreviation loop_body self :=
  (λ candidate : string,
     (hit <- has_item requests_get self candidate ;;
      if hit then ret (Some 1%Z) else ret None)%eff).

Lemma loop_body_run self c log :
  (hit <- has_item requests_get self c ;;
   if hit then ret (Some 1%Z) else ret None)%eff log
  = (match requests_get (request_for self c) with
     | Ok r => Ok (if hitb requests_get self c then Some 1%Z else None)
     | Raise e => Raise e
     end, log ++ [request_for self c]).
Proof.
  rewrite bind_unfold.
  destruct (requests_get (request_for self c)) as [r|e] eqn:Hr.
  - rewrite (has_item_answered _ _ _ r) by done.
    by destruct (hitb requests_get self c).
  - by rewrite (has_item_raises _ _ _ e).
Qed.

Lemma loop_outcome self xs log :
  ∃ visited,
    visited `prefix_of` xs
    ∧ snd (for_each xs (loop_body self) log)
      = log ++ (request_for self <$> visited)
    ∧ (fst (for_each xs (loop_body self) log) = Ok (Some 1%Z)
       ∨ fst (for_each xs (loop_body self) log) = Ok None
       ∨ ∃ e c, c ∈ xs ∧ requests_get (request_for self c) = Raise e
                ∧ fst (for_each xs (loop_body self) log) = Raise e).
Proof.
  revert log. induction xs as [|x xs IH]; intros log.
  { exists []. simpl. rewrite app_nil_r. auto. }
  rewrite for_each_cons. cbv beta. rewrite loop_body_run.
  destruct (requests_get (request_for self x)) as [r|e] eqn:Hr.
  - destruct (hitb requests_get self x).
    + exists [x]. split_and!; [by apply prefix_cons, prefix_nil|done|by left].
    + destruct (IH (log ++ [request_for self x]))
        as (visited & Hpre & Hlog & Hout).
      exists (x :: visited). split_and!; [by apply prefix_cons| |].
      * rewrite Hlog. simpl. by rewrite <- app_assoc.
      * destruct Hout as [?|[?|(e & c & Hc & He & ?)]]; [by left|by right; left|].
        right; right. exists e, c. split_and!; [by right|done..].
  - exists [x]. split_and!; [by apply prefix_cons, prefix_nil|done|].
    right; right. exists e, x. split_and!; [by left|done..].
Qed.

(** X12: whatever the network does, [find_wikidata_existence] sends
    requests only for candidates, one request each, in the set's order and
    without skipping: the requests of a call are those of a leading part
    of the visiting order, each carrying the object's headers and
    proxies. *)
Theorem find_wikidata_existence_requests set_iter self candidates log :
  ∃ visited,
    visited `prefix_of` set_iter candidates
    ∧ snd (find_wikidata_existence requests_get set_iter self candidates log)
      = log ++ (request_for self <$> visited).
Proof.
  destruct (loop_outcome self (set_iter candidates) log)
    as (visited & Hpre & Hlog & _).
  exists visited. split; [done|].
  unfold find_wikidata_existence. rewrite bind_unfold.
  destruct (for_each _ _ log) as [[[v|]|e] log']; by simpl in *.
Qed.

(** X13: whatever the network does, a call of [find_wikidata_existence]
    ends in one of three ways: it returns 1, it returns 0, or it raises an
    exception that [requests.get] raised for one of the candidates. *)
Theorem find_wikidata_existence_outcomes set_iter self candidates log :
  fst (find_wikidata_existence requests_get set_iter self candidates log)
  = Ok 1%Z
  ∨ fst (find_wikidata_existence requests_get set_iter self candidates log)
    = Ok 0%Z
  ∨ ∃ e c, c ∈ set_iter candidates
           ∧ requests_get (request_for self c) = Raise e
           ∧ fst (find_wikidata_existence requests_get set_iter self
                    candidates log) = Raise e.
Proof.
  destruct (loop_outcome self (set_iter candidates) log)
    as (visited & _ & _ & Hout).
  unfold find_wikidata_existence. rewrite bind_unfold.
  destruct (for_each _ _ log) as [[[v|]|e] log']; simpl in *.
  - destruct Hout as [[= ->]|[?|(? & ? & ? & ? & ?)]]; [by left|done..].
  - by right; left.
  - destruct Hout as [?|[?|(e' & c & Hc & He & [= ->])]]; [done..|].
    right; right. by exists e', c.
Qed.

Lemma find_wikidata_existence_answered set_iter self candidates log :
  (∀ c, c ∈ set_iter candidates →
        ∃ r, requests_get (request_for self c) = Ok r) →
  find_wikidata_existence requests_get set_iter self candidates log
  = (Ok (if existsb (hitb requests_get self) (set_iter candidates)
         then 1%Z else 0%Z),
     log ++ (request_for self
               <$> upto_first (hitb requests_get self) (set_iter candidates))).
Proof.
  intros Hnet. unfold find_wikidata_existence. rewrite bind_unfold.
  rewrite (for_each_upto_first (hitb requests_get self) 1%Z (request_for self)).
  - by destruct (existsb _ _).
  - intros c log' Hc. destruct (Hnet c Hc) as [r Hr].
    by rewrite loop_body_run, Hr.
Qed.

(** X14: when the network answers every candidate, the result of
    [find_wikidata_existence] is the same for every order in which the set
    may be visited (only the requests sent depend on the order). *)
Theorem find_wikidata_existence_order_independent
    set_iter1 set_iter2 self candidates log1 log2 :
  (∀ c, c ∈ set_iter1 candidates ↔ c ∈ candidates) →
  (∀ c, c ∈ set_iter2 candidates ↔ c ∈ candidates) →
  (∀ c, c ∈ candidates → ∃ r, requests_get (request_for self c) = Ok r) →
  fst (find_wikidata_existence requests_get set_iter1 self candidates log1)
  = fst (find_wikidata_existence requests_get set_iter2 self candidates log2).
Proof.
  intros H1 H2 Hnet.
  rewrite !find_wikidata_existence_answered
    by (intros c Hc; apply Hnet; first [by apply H1 | by apply H2]).
  simpl. rewrite (existsb_same_elements _ _ (set_iter2 candidates)); [done|].
  intros x. by rewrite H1, H2.
Qed.

End KnowledgeBaseAnyNetwork.

(** ** The similarity scorer, case by case *)

Lemma tokens_single phrase c0 : tokens phrase = [c0] → phrase = EmptyString.
Proof.
  unfold tokens. destruct (split " " phrase) as [|t [|t' rest]] eqn:Hs; [done| |done].
  intros [= <- Hchars]. apply split_single in Hs as [-> _].
  by destruct phrase.
Qed.

Section SimilarityScorer.
Context {F : Type}.
Import Word2Vec.
Implicit Types (self : Word2Vec.t F) (m : KeyedVectors F)
  (log : list (string * string)) (phrase : string).

Lemma get_similarity_score_cases self phrase log :
  get_similarity_score self phrase log
  = match tokens phrase with
    | [c0] => (if not_model self then Ok (Int (-1)) else Raise IndexError, log)
    | [c0; c1] =>
        match model self with
        | Some m => if truthy m
                    then (similarity_result m c0 c1, log ++ [(c0, c1)])
                    else (Ok (Int (-1)), log)
        | None => (Ok (Int (-1)), log)
        end
    | _ => (Ok (Int (-1)), log)
    end.
Proof.
  pose proof (split_not_nil " " phrase) as Hne.
  assert (∀ c0 c1 : string,
    try_except_KeyError
      (match model self with
       | None => ret (Int (-1))
       | Some m =>
           if negb (truthy m) then ret (Int (-1))
           else (c0' <- index [c0; c1] 0 ;;
                 c1' <- index [c0; c1] 1 ;;
                 model_similarity m c0' c1')%eff
       end) (ret (Int (-1))) log
    = match model self with
      | Some m => if truthy m
                  then (similarity_result m c0 c1, log ++ [(c0, c1)])
                  else (Ok (Int (-1)), log)
      | None => (Ok (Int (-1)), log)
      end) as Hpair.
  { intros c0 c1. unfold try_except_KeyError, similarity_result.
    destruct (model self) as [m|]; [|done].
    destruct (truthy m); [|done]. simpl.
    unfold bind, index, model_similarity. simpl.
    by destruct (similarity m c0 c1) as [f|[]]. }
  unfold get_similarity_score, tokens.
  destruct (split " " phrase) as [|c0 [|c1 [|c2 rest]]]; [done| | |done].
  - rewrite bind_unfold. simpl.
    destruct c0 as [|a [|b w]]; simpl.
    + unfold try_except_KeyError, not_model.
      destruct (model self) as [m|]; [|done]. by destruct (truthy m).
    + apply Hpair.
    + done.
  - rewrite bind_unfold. simpl. apply Hpair.
Qed.

(** X15: with no model (or one that counts as false) every phrase, the
    empty one included, gets [-1]; nothing is raised and the model is not
    called. *)
Theorem get_similarity_score_no_model self phrase log :
  not_model self = true →
  get_similarity_score self phrase log = (Ok (Int (-1)), log).
Proof.
  intros Hno. rewrite get_similarity_score_cases, Hno.
  unfold not_model in Hno.
  destruct (tokens phrase) as [|c0 [|c1 [|c2 rest]]]; [done..| |done].
  destruct (model self) as [m|]; [|done].
  by apply negb_true_iff in Hno as ->.
Qed.

(** X16: with a loaded model, a phrase of two tokens makes exactly one
    call [similarity(t1, t2)], tokens in the order given; the result is the
    similarity the model answers, [-1] when the model raises [KeyError],
    and any other exception of the model is passed on. *)
Theorem get_similarity_score_pair self m (t1 t2 : string) log :
  model self = Some m → truthy m = true →
  contains " " t1 = false → contains " " t2 = false →
  get_similarity_score self (t1 +:+ " " +:+ t2) log
  = (similarity_result m t1 t2, log ++ [(t1, t2)]).
Proof.
  intros Hm Ht H1 H2. change (" " +:+ t2) with (String " " t2).
  by rewrite get_similarity_score_cases, tokens_pair, Hm, Ht.
Qed.

(** X17: [get_similarity_score] never lets a [KeyError] out, and makes at
    most one call to the model. *)
Theorem get_similarity_score_never_KeyError self phrase log :
  fst (get_similarity_score self phrase log) ≠ Raise KeyError
  ∧ ∃ calls, snd (get_similarity_score self phrase log) = log ++ calls
             ∧ length calls ≤ 1.
Proof.
  rewrite get_similarity_score_cases.
  assert (∀ r : result (num F), ∃ calls : list (string * string),
            snd (r, log) = log ++ calls ∧ length calls ≤ 1) as Hnone.
  { intros r. exists []. simpl. rewrite app_nil_r. split; [done|lia]. }
  destruct (tokens phrase) as [|c0 [|c1 [|c2 rest]]]; [by split| |  |by split].
  - split; [by destruct (not_model self)|apply Hnone].
  - destruct (model self) as [m|]; [|by split].
    destruct (truthy m); [|by split]. split.
    + unfold similarity_result. simpl. by destruct (similarity m c0 c1) as [f|[]].
    + exists [(c0, c1)]. simpl. split; [done|lia].
Qed.

(** X18: when the model raises nothing but [KeyError], the empty phrase
    is the only one for which [get_similarity_score] raises: every other
    phrase gets a value. *)
Theorem get_similarity_score_returns self phrase log :
  (∀ m w1 w2 e, model self = Some m → similarity m w1 w2 = Raise e →
                e = KeyError) →
  phrase ≠ EmptyString →
  ∃ v, fst (get_similarity_score self phrase log) = Ok v.
Proof.
  intros Honly Hphrase. rewrite get_similarity_score_cases.
  destruct (tokens phrase) as [|c0 [|c1 [|c2 rest]]] eqn:Htok; [by eexists| | |by eexists].
  - by apply tokens_single in Htok.
  - destruct (model self) as [m|] eqn:Hm; [|by eexists].
    destruct (truthy m); [|by eexists]. simpl. unfold similarity_result.
    destruct (similarity m c0 c1) as [f|e] eqn:Hsim; [by eexists|].
    rewrite (Honly m c0 c1 e) by done. by eexists.
Qed.

(** X19: a one-character word is scored exactly as the two-token phrase
    that repeats it: same result, same call to the model. *)
Theorem get_similarity_score_one_char self (a : ascii) log :
  a ≠ " "%char →
  get_similarity_score self (String a EmptyString) log
  = get_similarity_score self
      (String a EmptyString +:+ " " +:+ String a EmptyString) log.
Proof.
  intros Ha. rewrite !get_similarity_score_cases.
  rewrite tokens_one_char by done.
  change (String a EmptyString +:+ " " +:+ String a EmptyString)
    with (String a EmptyString +:+ String " " (String a EmptyString)).
  rewrite tokens_pair; [done|simpl; by rewrite orb_false_r, Ascii.eqb_neq..].
Qed.

End SimilarityScorer.

(** ** The lexical-database checker: composition *)

Lemma upto_first_app {A} (p : A → bool) (l1 l2 : list A) :
  upto_first p (l1 ++ l2)
  = if existsb p l1 then upto_first p l1 else l1 ++ upto_first p l2.
Proof.
  induction l1 as [|x l1 IH]; simpl; [done|].
  destruct (p x); simpl; [done|]. rewrite IH. by destruct (existsb p l1).
Qed.

Lemma replace_idemp old new s :
  old ≠ new → replace old new (replace old new s) = replace old new s.
Proof. intros Hne. by apply replace_no_occurrence, replace_no_old. Qed.

Section LexicalDatabaseComposition.
Import Wordnet.
Context {Synset : Type}.
Variable wordnet_synsets : string → list Synset.
Implicit Types (candidates : list string) (log : list string).

Lemma find_wordnet_existence_run candidates log :
  find_wordnet_existence wordnet_synsets candidates log
  = (Ok (if existsb (has_senses wordnet_synsets) (replace " " "_" <$> candidates)
         then 1%Z else 0%Z),
     log ++ upto_first (has_senses wordnet_synsets)
              (replace " " "_" <$> candidates)).
Proof.
  unfold find_wordnet_existence. rewrite bind_unfold.
  rewrite (for_each_upto_first
             (has_senses wordnet_synsets ∘ replace " " "_") 1%Z
             (replace " " "_")).
  - rewrite existsb_fmap, upto_first_fmap. by destruct (existsb _ _).
  - intros c log' _. unfold bind, synsets, has_senses. simpl.
    by destruct (wordnet_synsets _).
Qed.

(** X21: checking a list made of two parts is checking the first part
    and, only if it gave 0, going on with the second part from where the
    first left off. *)
Theorem find_wordnet_existence_app candidates1 candidates2 log :
  find_wordnet_existence wordnet_synsets (candidates1 ++ candidates2) log
  = match find_wordnet_existence wordnet_synsets candidates1 log with
    | (Ok 1%Z, log') => (Ok 1%Z, log')
    | (_, log') => find_wordnet_existence wordnet_synsets candidates2 log'
    end.
Proof.
  rewrite !find_wordnet_existence_run, fmap_app, existsb_app, upto_first_app.
  destruct (existsb _ (replace " " "_" <$> candidates1)) eqn:Hex;
    cbn [orb]; [done|].
  by rewrite (upto_first_no_hit _ _ Hex), <- app_assoc.
Qed.

(** X22: candidates that are already written with underscores are checked
    exactly as their spaced forms: same result, same lookups. *)
Theorem find_wordnet_existence_underscored candidates log :
  find_wordnet_existence wordnet_synsets (replace " " "_" <$> candidates) log
  = find_wordnet_existence wordnet_synsets candidates log.
Proof.
  rewrite !find_wordnet_existence_run.
  assert (replace " " "_" <$> (replace " " "_" <$> candidates)
          = replace " " "_" <$> candidates) as ->; [|done].
  rewrite <- list_fmap_compose. apply list_fmap_ext.
  intros i c _. by apply replace_idemp.
Qed.

(** X23: the result depends only on which candidates are given, not on
    their order or repetitions (the lookups made do depend on them). *)
Theorem find_wordnet_existence_same_elements candidates1 candidates2 log1 log2 :
  (∀ c, c ∈ candidates1 ↔ c ∈ candidates2) →
  fst (find_wordnet_existence wordnet_synsets candidates1 log1)
  = fst (find_wordnet_existence wordnet_synsets candidates2 log2).
Proof.
  intros Hsame. rewrite !find_wordnet_existence_run. simpl.
  rewrite (existsb_same_elements _ _ (replace " " "_" <$> candidates2)); [done|].
  intros w. rewrite !list_elem_of_fmap.
  split; intros (c & -> & Hc); exists c; (split; [done|by apply Hsame]).
Qed.

End LexicalDatabaseComposition.


(** ** Construction of the adapters *)

(** X24: when the object that the loader returns counts as false, the
    constructor stores no model, and from then on every word gets the
    300-entry vector of [-1] and every phrase the score [-1], without a
    call to the model. *)
Theorem word2vec_unloaded_degrades {F}
    (load_word2vec_format : string → Word2Vec.KeyedVectors F)
    (path word phrase : string) (log : list (string * string)) :
  Word2Vec.truthy (load_word2vec_format path) = false →
  Word2Vec.model (Word2Vec.init load_word2vec_format path) = None
  ∧ Word2Vec.get_word_embedding (Word2Vec.init load_word2vec_format path) word
    = replicate 300 (Int (-1))
  ∧ Word2Vec.get_similarity_score (Word2Vec.init load_word2vec_format path)
      phrase log
    = (Ok (Int (-1)), log).
Proof.
  intros Hfalse.
  assert (Word2Vec.model (Word2Vec.init load_word2vec_format path) = None)
    as Hnone.
  { unfold Word2Vec.init, Word2Vec.load_word2vec_model_from_path. simpl.
    by rewrite Hfalse. }
  split_and!; [done| |].
  - unfold Word2Vec.get_word_embedding. by rewrite Hnone.
  - rewrite get_similarity_score_cases. unfold Word2Vec.not_model.
    rewrite Hnone. by destruct (tokens phrase) as [|c0 [|c1 [|c2 rest]]].
Qed.

(** X25: the constructor of the knowledge-base adapter keeps a proxy only
    when it is a non-empty string: [None] and the empty string both leave
    the entry out, nothing but the two entries [http] and [https] is ever
    stored, and the headers are the module's. *)
Theorem wikidata_init_proxies (http_proxy https_proxy : option string) :
  Wikidata.headers (Wikidata.init http_proxy https_proxy)
  = {[ "Accept" := "application/json" ]}
  ∧ Wikidata.proxies (Wikidata.init http_proxy https_proxy) !! "http"
    = (if Wikidata.truthy_str http_proxy then http_proxy else None)
  ∧ Wikidata.proxies (Wikidata.init http_proxy https_proxy) !! "https"
    = (if Wikidata.truthy_str https_proxy then https_proxy else None)
  ∧ (∀ k, k ≠ "http" → k ≠ "https" →
          Wikidata.proxies (Wikidata.init http_proxy https_proxy) !! k = None)
  ∧ Wikidata.init (Some EmptyString) https_proxy
    = Wikidata.init None https_proxy
  ∧ Wikidata.init http_proxy (Some EmptyString)
    = Wikidata.init http_proxy None.
Proof.
  split_and!; [done|..|done|done].
  - destruct http_proxy as [[|a p]|], https_proxy as [[|a' p']|]; simpl;
      by simplify_map_eq.
  - destruct http_proxy as [[|a p]|], https_proxy as [[|a' p']|]; simpl;
      by simplify_map_eq.
  - intros k Hk1 Hk2.
    destruct http_proxy as [[|a p]|], https_proxy as [[|a' p']|]; simpl;
      by simplify_map_eq.
Qed.

(** ** The further properties on the sample data *)

(** X3, witness: the pair (the, cat) is listed with PMI 5/2 and chi-square
    40. *)
Lemma get_pmi_score_pair_witness :
  contains " " "the" = false
  ∧ contains " " "cat" = false
  ∧ fst (NLTKCollocations.get_pmi_score ("the" +:+ " " +:+ "cat")
           (NLTKCollocations.after_calls
              (NLTKCollocations.init sample_scores) ["red cat"; "the cat"]))
    = Ok [Float (5 # 2)%Q; Float (40 # 1)%Q].
Proof.
  split_and!; [done..|].
  by rewrite (get_pmi_score_pair sample_scores ["red cat"; "the cat"]
                "the" "cat").
Defined.

(** X7, witness: a three-word phrase. *)
Lemma get_pmi_score_many_tokens_witness :
  2 < length (split " " "the big cat")
  ∧ fst (NLTKCollocations.get_pmi_score "the big cat"
           (NLTKCollocations.init sample_scores))
    = Ok [Int 0; Int 0].
Proof.
  split; [vm_compute; lia|].
  apply (get_pmi_score_many_tokens sample_scores [] "the big cat").
  vm_compute; lia.
Defined.

(** X8, witness: the two sample corpora differ in their likelihood-ratio
    listing only. *)
Lemma get_pmi_score_ignores_likelihood_ratio_witness :
  NLTKCollocations.score_pmi sample_scores
  = NLTKCollocations.score_pmi sample_scores_relisted
  ∧ NLTKCollocations.score_chi_sq sample_scores
    = NLTKCollocations.score_chi_sq sample_scores_relisted
  ∧ fst (NLTKCollocations.get_pmi_score "the cat"
           (NLTKCollocations.after_calls
              (NLTKCollocations.init sample_scores) ["a"]))
    = fst (NLTKCollocations.get_pmi_score "the cat"
             (NLTKCollocations.after_calls
                (NLTKCollocations.init sample_scores_relisted) ["a"])).
Proof.
  split_and!; [done..|].
  by apply (get_pmi_score_ignores_likelihood_ratio
              sample_scores sample_scores_relisted).
Defined.

(** X9, witness: the word [that], although the pair (that, that) is
    listed. *)
Lemma get_pmi_score_long_word_witness :
  contains " " "that" = false
  ∧ 2 ≤ String.length "that"
  ∧ fst (NLTKCollocations.get_pmi_score "that"
           (NLTKCollocations.after_calls
              (NLTKCollocations.init sample_scores) ["that that"]))
    = Ok [Int 0; Int 0].
Proof.
  split_and!; [done|simpl; lia|].
  apply (get_pmi_score_long_word sample_scores ["that that"] "that");
    [done|simpl; lia].
Defined.

(** X10, witness: the word [a] and the phrase [a a]. *)
Lemma get_pmi_score_one_char_witness :
  wf (NLTKCollocations.init sample_scores)
  ∧ "a"%char ≠ " "%char
  ∧ NLTKCollocations.get_pmi_score "a" (NLTKCollocations.init sample_scores)
    = NLTKCollocations.get_pmi_score ("a" +:+ " " +:+ "a")
        (NLTKCollocations.init sample_scores).
Proof.
  split_and!; [by split|done|].
  apply (get_pmi_score_one_char (NLTKCollocations.init sample_scores) "a");
    [by split|done].
Defined.

(** X14, witness: the sample candidates visited in two opposite orders. *)
Lemma find_wikidata_existence_order_independent_witness :
  (∀ c, c ∈ sample_set_iter sample_candidates ↔ c ∈ sample_candidates)
  ∧ (∀ c, c ∈ sample_set_iter_reversed sample_candidates
          ↔ c ∈ sample_candidates)
  ∧ (∀ c, c ∈ sample_candidates →
          ∃ r, sample_network (request_for sample_wikidata c) = Ok r)
  ∧ fst (Wikidata.find_wikidata_existence sample_network sample_set_iter
           sample_wikidata sample_candidates [])
    = fst (Wikidata.find_wikidata_existence sample_network
             sample_set_iter_reversed sample_wikidata sample_candidates []).
Proof.
  assert (∀ c, c ∈ sample_set_iter sample_candidates ↔ c ∈ sample_candidates)
    as H1 by (intros; apply elem_of_remove_dups).
  assert (∀ c, c ∈ sample_set_iter_reversed sample_candidates
               ↔ c ∈ sample_candidates) as H2.
  { intros c. unfold sample_set_iter_reversed.
    by rewrite elem_of_reverse, elem_of_remove_dups. }
  assert (∀ c, c ∈ sample_candidates →
               ∃ r, sample_network (request_for sample_wikidata c) = Ok r)
    as Hnet.
  { intros c Hc. repeat (apply elem_of_cons in Hc as [->|Hc]);
      [by eexists; vm_compute..|by apply elem_of_nil in Hc]. }
  split_and!; [done..|].
  by apply (find_wikidata_existence_order_independent sample_network
              sample_set_iter sample_set_iter_reversed).
Defined.

(** X15, witness: the object whose model did not load. *)
Lemma get_similarity_score_no_model_witness :
  Word2Vec.not_model unloaded_word2vec = true
  ∧ Word2Vec.get_similarity_score unloaded_word2vec "that cat" []
    = (Ok (Int (-1)), []).
Proof.
  split; [done|].
  by apply (get_similarity_score_no_model unloaded_word2vec "that cat" []).
Defined.

(** X16, witness: two words of the sample vocabulary, and a pair with a
    word outside it. *)
Lemma get_similarity_score_pair_witness :
  Word2Vec.model sample_word2vec = Some sample_model
  ∧ Word2Vec.truthy sample_model = true
  ∧ contains " " "that" = false
  ∧ contains " " "dog" = false
  ∧ Word2Vec.get_similarity_score sample_word2vec ("that" +:+ " " +:+ "dog") []
    = (Ok (Int (-1)), [("that", "dog")]).
Proof.
  split_and!; [done..|].
  by rewrite (get_similarity_score_pair sample_word2vec sample_model
                "that" "dog" []).
Defined.

(** X18, witness: the sample model raises [KeyError] only. *)
Lemma get_similarity_score_returns_witness :
  (∀ m w1 w2 e, Word2Vec.model sample_word2vec = Some m →
                Word2Vec.similarity m w1 w2 = Raise e → e = KeyError)
  ∧ "dog" ≠ EmptyString
  ∧ ∃ v, fst (Word2Vec.get_similarity_score sample_word2vec "dog" []) = Ok v.
Proof.
  assert (∀ m w1 w2 e, Word2Vec.model sample_word2vec = Some m →
                       Word2Vec.similarity m w1 w2 = Raise e → e = KeyError)
    as Honly.
  { intros m w1 w2 e [= <-]. simpl.
    destruct (_ && _); [done|]. by intros [= <-]. }
  split_and!; [done..|].
  by apply (get_similarity_score_returns sample_word2vec "dog" []).
Defined.

(** X19, witness: the word [a]. *)
Lemma get_similarity_score_one_char_witness :
  "a"%char ≠ " "%char
  ∧ Word2Vec.get_similarity_score sample_word2vec "a" []
    = Word2Vec.get_similarity_score sample_word2vec ("a" +:+ " " +:+ "a") [].
Proof.
  split; [done|].
  by apply (get_similarity_score_one_char sample_word2vec "a" []).
Defined.

(** X20, witness: the word [that], which the sample model knows. *)
Lemma get_similarity_score_long_word_witness :
  contains " " "that" = false
  ∧ 2 ≤ String.length "that"
  ∧ Word2Vec.get_similarity_score sample_word2vec "that" []
    = (Ok (Int (-1)), []).
Proof.
  split_and!; [done|simpl; lia|].
  apply (get_similarity_score_long_word sample_word2vec "that" []);
    [done|simpl; lia].
Defined.

(** X23, witness: the same candidates in another order, one repeated. *)
Lemma find_wordnet_existence_same_elements_witness :
  (∀ c, c ∈ ["cream"; "ice cream"] ↔ c ∈ ["ice cream"; "cream"; "ice cream"])
  ∧ fst (Wordnet.find_wordnet_existence sample_synsets
           ["cream"; "ice cream"] [])
    = fst (Wordnet.find_wordnet_existence sample_synsets
             ["ice cream"; "cream"; "ice cream"] []).
Proof.
  assert (∀ c : string,
            c ∈ ["cream"; "ice cream"] ↔ c ∈ ["ice cream"; "cream"; "ice cream"])
    as Hsame.
  { intros c. rewrite !elem_of_cons, !elem_of_nil. tauto. }
  split; [done|].
  by apply (find_wordnet_existence_same_elements sample_synsets).
Defined.

(** X24, witness: the loader that returns the object counting as false. *)
Lemma word2vec_unloaded_degrades_witness :
  Word2Vec.truthy falsy_model = false
  ∧ Word2Vec.get_word_embedding unloaded_word2vec "that"
    = replicate 300 (Int (-1))
  ∧ Word2Vec.get_similarity_score unloaded_word2vec "that cat" []
    = (Ok (Int (-1)), []).
Proof.
  split; [done|].
  by destruct (word2vec_unloaded_degrades (λ _, falsy_model) "model.bin"
                 "that" "that cat" [] eq_refl) as (_ & Hvec & Hscore).
Defined.
